(** * The SSH transport of the component registry client

    A shallow embedding of [src/scope/network/ssh/ssh.ts] and
    [src/remotes/remote.ts], with the properties the specification states
    about them.

    Conventions of the embedding:
    - a JavaScript value is a [Js.value]; numbers are the integers [Z]
      (exit codes and counters are all the program uses);
    - a call that can throw returns an [outcome];
    - the instance [this], the promise of [exec] and the cell of [R.once]
      are mutable in the source and are passed explicitly here;
    - collaborators that live outside the two files (the envelope codec,
      [JSON.parse], the version check, the transport, the prompts and the
      configuration) are the [Variable]s of a [Section]. *)

From Stdlib Require Import String Ascii List ZArith Bool Lia.
Import ListNotations.

Set Warnings "-register-all".

Local Open Scope list_scope.
Local Open Scope string_scope.

(* ================================================================== *)
(** ** JavaScript values and the string methods the program uses *)

Module Js.

Inductive value : Type :=
| Undefined
| Null
| Bool (b : bool)
| Num (n : Z)
| Str (s : string)
| Arr (items : list value)
| Obj (fields : list (string * value)).

(** [ToBoolean]: what [if (v)], [v && _], [v || _] and [v ? _ : _] test. *)
Definition truthy (v : value) : bool :=
  match v with
  | Undefined | Null => false
  | Bool b => b
  | Num n => negb (n =? 0)%Z
  | Str s => negb (s =? "")
  | Arr _ | Obj _ => true
  end.

Fixpoint assoc (k : string) (fields : list (string * value)) : value :=
  match fields with
  | [] => Undefined
  | (k', v) :: rest => if k' =? k then v else assoc k rest
  end.

(** [v.k] for the property names the program reads ([headers], [payload],
    [version], [message], [id], [name], [idsAndVersions], [sourceScope],
    [destinationScope], [ids]).  Reading a property of [undefined] or
    [null] throws a [TypeError]: [None].  Primitives and arrays have none
    of these properties. *)
Definition get (v : value) (k : string) : option value :=
  match v with
  | Undefined | Null => None
  | Obj fields => Some (assoc k fields)
  | _ => Some Undefined
  end.

(** [v.k] where the source has already tested [v] for truthiness. *)
Definition prop (v : value) (k : string) : value :=
  match get v k with
  | Some x => x
  | None => Undefined
  end.

(** [v === s] for a string literal [s] *)
Definition is_str (v : value) (s : string) : bool :=
  match v with
  | Str s' => s' =? s
  | _ => false
  end.

(** [a || b] *)
Definition or (a b : value) : value := if truthy a then a else b.

Definition newline : string := String (ascii_of_nat 10) "".
Definition dquote : string := String (ascii_of_nat 34) "".

Fixpoint drop (n : nat) (s : string) : string :=
  match n, s with
  | O, _ => s
  | S n', String _ s' => drop n' s'
  | S _, EmptyString => EmptyString
  end.

(** [s.startsWith(p)] *)
Definition startsWith (s p : string) : bool := String.prefix p s.

(** [s.replace(pat, '')] with a string pattern: the first occurrence of
    [pat], scanning from the left, is removed; nothing else changes. *)
Fixpoint replace_first (pat s : string) : string :=
  if String.prefix pat s then drop (String.length pat) s
  else match s with
       | EmptyString => EmptyString
       | String c s' => String c (replace_first pat s')
       end.

(** [s.includes(p)] *)
Fixpoint includes (s p : string) : bool :=
  if String.prefix p s then true
  else match s with
       | EmptyString => false
       | String _ s' => includes s' p
       end.

(** [xs.join(sep)] on an array of strings. *)
Definition join (sep : string) (xs : list string) : string :=
  String.concat sep xs.

End Js.

(* ================================================================== *)
(** ** Calls that can throw, over a mutable state *)

Inductive outcome (E A : Type) : Type :=
| Returned (a : A)
| Threw (e : E).
Arguments Returned {E A} a.
Arguments Threw {E A} e.

(** A computation that reads and writes a state [S] and either returns or
    throws.  The state a throwing computation leaves behind is kept: a
    JavaScript [throw] does not undo assignments. *)
Definition ST (S E A : Type) : Type := S -> outcome E A * S.

Definition ret {S E A} (a : A) : ST S E A := fun s => (Returned a, s).

Definition throw {S E A} (e : E) : ST S E A := fun s => (Threw e, s).

Definition bind {S E A B} (m : ST S E A) (k : A -> ST S E B) : ST S E B :=
  fun s =>
    match m s with
    | (Returned a, s') => k a s'
    | (Threw e, s') => (Threw e, s')
    end.

(** [try { m } catch (e) { h e }] *)
Definition try_catch {S E A} (m : ST S E A) (h : E -> ST S E A) : ST S E A :=
  fun s =>
    match m s with
    | (Returned a, s') => (Returned a, s')
    | (Threw e, s') => h e s'
    end.

Notation "x <- m ;; k" := (bind m (fun x => k))
  (at level 61, m at next level, right associativity).
Notation "m ;;; k" := (bind m (fun _ => k))
  (at level 61, right associativity).

(* ================================================================== *)
(** ** [R.once]

    Ramda's [once(fn)] keeps two variables, [called] and [result].  A call
    returns [result] when [called] is set; otherwise it sets [called], runs
    [fn] on the arguments and stores what it returns.  [called] is set
    before [fn] runs, so a first call that throws still uses up the cell.
    The arguments of later calls are not looked at.

    [ran] is a ghost field: the arguments [fn] really ran on, oldest
    first. *)

Module Once.

Record cell (A R : Type) : Type := Cell {
  called : bool;
  result : option R;
  ran : list A
}.
Arguments Cell {A R}.
Arguments called {A R}.
Arguments result {A R}.
Arguments ran {A R}.

Definition fresh {A R} : cell A R :=
  {| called := false; result := None; ran := [] |}.

Definition call {E A R} (fn : A -> outcome E R) (c : cell A R) (a : A)
  : outcome E (option R) * cell A R :=
  if called c then (Returned (result c), c)
  else match fn a with
       | Returned r =>
           (Returned (Some r),
            {| called := true; result := Some r; ran := (ran c ++ [a])%list |})
       | Threw e =>
           (Threw e,
            {| called := true; result := None; ran := (ran c ++ [a])%list |})
       end.

End Once.

(* ================================================================== *)
(** ** [src/remotes/remote.ts] *)

Module Remote.

Record Remote : Type := {
  primary : bool;
  host : string;
  name : string
}.

(** [isPrimary(alias)] *)
Definition isPrimary (alias : string) : bool := Js.includes alias "!".

(** [constructor(host, name, primary = false)]; [name] may be [null] or
    [undefined] ([None]), and [this.name = name || '']. *)
Definition constructor (host : string) (name : option string) (primary : bool)
  : Remote :=
  {| name := match name with
             | Some n => if n =? "" then "" else n
             | None => ""
             end;
     host := host;
     primary := primary |}.

(** The object [toPlainObject()] returns. *)
Record PlainObject : Type := {
  plain_host : string;
  plain_name : string
}.

Definition toPlainObject (r : Remote) : PlainObject :=
  {| plain_host := host r; plain_name := name r |}.

(** Modelled from the spec: [cleanBang] of [../utils] is not under
    [src/].  It is the helper that takes the ['!'] primary marker out of
    an alias, [str.replace('!', '')]: the first ['!'] of the text goes,
    wherever it stands. *)
Definition cleanBang (str : string) : string := Js.replace_first "!" str.

Section Load.

(** [cleanBang] is imported from [../utils]. *)
Variable cleanBang : string -> string.

(** [static load(name, host)] *)
Definition load (name host : string) : Remote :=
  let primary := isPrimary name in
  let name := if primary then cleanBang name else name in
  constructor name (Some host) primary.

End Load.

End Remote.

(* ================================================================== *)
(** ** [src/scope/network/ssh/ssh.ts] *)

Module SSH.

(** *** Errors

    Everything the file throws or rejects with.  [AuthenticationStrategyFailed]
    is the class local to the file; the others are imported.  [Foreign] is a
    value thrown by a collaborator (the key getter, the prompt, the
    transport's [exec]) or a plain string passed to [reject]. *)
Inductive exn : Type :=
| AuthenticationStrategyFailed (message : string)
| AuthenticationFailed (message : string)
| GeneralError (message : string)
| SSHInvalidResponse (data : Js.value)
| ComponentNotFound (id : Js.value)
| PermissionDenied (scope : string)
| RemoteScopeNotFound (name : Js.value)
| MergeConflictOnRemote (idsAndVersions : Js.value)
| CustomError (message : Js.value)
| OldClientVersion (message : Js.value)
| ExportAnotherOwnerPrivate (message sourceScope destinationScope : Js.value)
| UnexpectedNetworkError (message : Js.value)
| TypeError
| Foreign (e : Js.value).

(** [err.message] can be read: [err] is neither [undefined] nor [null].
    The errors of the classes above are objects. *)
Definition has_message (err : exn) : bool :=
  match err with
  | Foreign Js.Undefined | Foreign Js.Null => false
  | _ => true
  end.

Definition AUTH_FAILED_MESSAGE : string :=
  "All configured authentication methods failed".
Definition PASSPHRASE_POSSIBLY_MISSING_MESSAGE : string :=
  "Cannot parse privateKey: Unsupported key format".

Definition absolutePath (path : string) : string :=
  if Js.startsWith path "/" then path else "~/" ++ path.

Definition clean (str : string) : string :=
  Js.replace_first Js.newline str.

Inductive SSHConnectionStrategyName : Type :=
| token
| ssh_agent
| ssh_key
| user_password
| anonymous.

Definition DEFAULT_STRATEGIES : list SSHConnectionStrategyName :=
  [token; ssh_agent; ssh_key; user_password].
Definition DEFAULT_READ_STRATEGIES : list SSHConnectionStrategyName :=
  [token; ssh_agent; ssh_key; anonymous; user_password].

(** *** The connection configuration and the instance *)

(** The object [merge(this._composeBaseObject(), {...})] handed to
    [conn.connect]; a field the merge leaves out is [Js.Undefined]. *)
Record SSHConfig : Type := {
  cfg_username : string;
  cfg_host : string;
  cfg_port : Z;
  cfg_passphrase : Js.value;
  cfg_readyTimeout : Z;
  cfg_password : Js.value;
  cfg_agent : Js.value;
  cfg_privateKey : Js.value
}.

(** A live [SSH2] client, told apart by the configuration it was opened
    with. *)
Record Connection : Type := { opened_with : SSHConfig }.

(** The error object of the transport's ['error'] event; [err_host] and
    [err_port] are [err.host] and [err.port] as a template literal prints
    them. *)
Record TransportError : Type := {
  err_message : string;
  err_code : Js.value;
  err_host : string;
  err_port : string
}.

Record SSH : Type := {
  connection : option Connection;
  path : string;
  username : string;
  port : Z;
  host : string;
  _sshUsername : option string
}.

Definition set_connection (c : Connection) (this : SSH) : SSH :=
  {| connection := Some c; path := path this; username := username this;
     port := port this; host := host this;
     _sshUsername := _sshUsername this |}.

Definition set_sshUsername (u : string) (this : SSH) : SSH :=
  {| connection := connection this; path := path this;
     username := username this; port := port this; host := host this;
     _sshUsername := Some u |}.

(** [constructor({ path, username, port, host })]; [host || ''] on a string
    is the string. *)
Definition constructor (path username : string) (port : Z) (host : string)
  : SSH :=
  {| connection := None; path := path; username := username; port := port;
     host := if host =? "" then "" else host; _sshUsername := None |}.

(** What the process and the user provide to the strategies. *)
Record Env : Type := {
  globalFlags_token : Js.value;
  config_user_token : Js.value;
  SSH_AUTH_SOCK : Js.value;
  keyGetter : outcome exn Js.value;
  promptUserpass : outcome exn (string * string);
  handshake : SSHConfig -> outcome TransportError Connection;
  process_platform : string;
  os_release : string
}.

(** *** Negotiation *)

(** The strategies are methods: they run over the instance. *)
Definition Method : Type -> Type := ST SSH exn.

Section Negotiation.

Variable DEFAULT_SSH_READY_TIMEOUT : Z.
Variable env : Env.


Definition _composeBaseObject (this : SSH) : SSHConfig :=
  {| cfg_username := username this; cfg_host := host this;
     cfg_port := port this; cfg_passphrase := Js.Undefined;
     cfg_readyTimeout := DEFAULT_SSH_READY_TIMEOUT;
     cfg_password := Js.Undefined; cfg_agent := Js.Undefined;
     cfg_privateKey := Js.Undefined |}.

Definition with_credentials (u : string) (p : Js.value) (c : SSHConfig)
  : SSHConfig :=
  {| cfg_username := u; cfg_host := cfg_host c; cfg_port := cfg_port c;
     cfg_passphrase := cfg_passphrase c;
     cfg_readyTimeout := cfg_readyTimeout c; cfg_password := p;
     cfg_agent := cfg_agent c; cfg_privateKey := cfg_privateKey c |}.

Definition with_agent (a : Js.value) (c : SSHConfig) : SSHConfig :=
  {| cfg_username := cfg_username c; cfg_host := cfg_host c;
     cfg_port := cfg_port c; cfg_passphrase := cfg_passphrase c;
     cfg_readyTimeout := cfg_readyTimeout c; cfg_password := cfg_password c;
     cfg_agent := a; cfg_privateKey := cfg_privateKey c |}.

Definition with_privateKey (k : Js.value) (c : SSHConfig) : SSHConfig :=
  {| cfg_username := cfg_username c; cfg_host := cfg_host c;
     cfg_port := cfg_port c; cfg_passphrase := cfg_passphrase c;
     cfg_readyTimeout := cfg_readyTimeout c; cfg_password := cfg_password c;
     cfg_agent := cfg_agent c; cfg_privateKey := k |}.

(** [null] is [None]. *)
Definition _composeTokenAuthObject : Method (option SSHConfig) :=
  fun this =>
    let processToken := globalFlags_token env in
    let token := Js.or processToken (config_user_token env) in
    if Js.truthy token then
      let this := set_sshUsername "token" this in
      (Returned (Some (with_credentials "token" token
                         (_composeBaseObject this))), this)
    else (Returned None, this).

Definition _composeAnonymousAuthObject : Method (option SSHConfig) :=
  fun this =>
    let this := set_sshUsername "anonymous" this in
    (Returned (Some (with_credentials "anonymous" (Js.Str "")
                       (_composeBaseObject this))), this).

Definition _composeUserPassObject : Method SSHConfig :=
  fun this =>
    match promptUserpass env with
    | Returned (username, password) =>
        let this := set_sshUsername username this in
        (Returned (with_credentials username (Js.Str password)
                     (_composeBaseObject this)), this)
    | Threw e => (Threw e, this)
    end.

Definition _hasAgentSocket : bool := Js.truthy (SSH_AUTH_SOCK env).

(** Resolves with [this]: [Returned tt] leaves the instance, now holding
    the connection, as the state. *)
Definition _connectWithConfig (sshConfig : SSHConfig)
    (authenticationType authFailedMsg : string) : Method unit :=
  fun this =>
    match handshake env sshConfig with
    | Returned conn => (Returned tt, set_connection conn this)
    | Threw err =>
        if err_message err =? AUTH_FAILED_MESSAGE then
          (Threw (AuthenticationStrategyFailed authFailedMsg), this)
        else if Js.is_str (err_code err) "ENOTFOUND" then
          (Threw (GeneralError
             ("unable to find the SSH server. host: " ++ err_host err
              ++ ", port: " ++ err_port err
              ++ ". Original error message: " ++ err_message err)), this)
        else if err_message err =? PASSPHRASE_POSSIBLY_MISSING_MESSAGE then
          let macMojaveOs := (process_platform env =? "darwin")
                             && (os_release env =? "18.2.0") in
          let passphrasePossiblyMissing :=
            "error connecting with private ssh key. in case passphrase is used, use ssh-agent." in
          let passphrasePossiblyMissing :=
            if macMojaveOs then
              passphrasePossiblyMissing ++
              " for macOS Mojave users, use `-m PEM` for `ssh-keygen` command to generate a valid SSH key"
            else passphrasePossiblyMissing in
          (Threw (AuthenticationStrategyFailed passphrasePossiblyMissing), this)
        else
          (Threw (AuthenticationStrategyFailed
             (authFailedMsg ++ " due to an error " ++ Js.dquote
              ++ err_message err ++ Js.dquote)), this)
    end.

Definition _tokenAuthentication : Method unit :=
  sshConfig <- _composeTokenAuthObject ;;
  match sshConfig with
  | None =>
      throw (AuthenticationStrategyFailed
        "user token not defined in bit-config. please run `bit login` to authenticate.")
  | Some sshConfig =>
      let authFailedMsg :=
        "failed to authenticate with user token. generate a new token by running `bit logout && bit login`." in
      _connectWithConfig sshConfig "token" authFailedMsg
  end.

Definition _anonymousAuthentication : Method unit :=
  sshConfig <- _composeAnonymousAuthObject ;;
  match sshConfig with
  | None =>
      throw (AuthenticationStrategyFailed
        "could not create the anonymous ssh configuration.")
  | Some sshConfig =>
      let authFailedMsg := "collection might be private." in
      _connectWithConfig sshConfig "anonymous" authFailedMsg
  end.

Definition _sshAgentAuthentication : Method unit :=
  fun this =>
    if negb _hasAgentSocket then
      (Threw (AuthenticationStrategyFailed
        "unable to get SSH keys from ssh-agent to. perhaps service is down or disabled."),
       this)
    else
      let sshConfig := with_agent (SSH_AUTH_SOCK env) (_composeBaseObject this) in
      let authFailedMsg :=
        "no matching private key found in ssh-agent to authenticate to remote server." in
      _connectWithConfig sshConfig "ssh-agent" authFailedMsg this.

Definition _sshKeyAuthentication : Method unit :=
  fun this =>
    match keyGetter env with
    | Threw e => (Threw e, this)
    | Returned keyBuffer =>
        if negb (Js.truthy keyBuffer) then
          (Threw (AuthenticationStrategyFailed
            "SSH key not found in `~/.ssh/id_rsa` or `ssh_key_file` config in `bit config` either not configured or refers to wrong path."),
           this)
        else
          let sshConfig := with_privateKey keyBuffer (_composeBaseObject this) in
          let authFailedMsg :=
            "failed connecting to remote server using `~/.ssh/id_rsa` or `ssh_key_file` in `bit config`." in
          _connectWithConfig sshConfig "ssh-key" authFailedMsg this
    end.

Definition _userPassAuthentication : Method unit :=
  sshConfig <- _composeUserPassObject ;;
  let authFailedMsg :=
    "unable to connect using provided username and password combination." in
  _connectWithConfig sshConfig "user-password" authFailedMsg.

(** The table [strategies] of [connect]. *)
Definition strategies (strategyName : SSHConnectionStrategyName)
  : Method unit :=
  match strategyName with
  | token => _tokenAuthentication
  | anonymous => _anonymousAuthentication
  | ssh_agent => _sshAgentAuthentication
  | ssh_key => _sshKeyAuthentication
  | user_password => _userPassAuthentication
  end.

(** How the [for] loop of [connect] ends.  [tried], everywhere below, is
    the list of names the loop has logged with
    [`ssh, trying to connect using ${strategyName}`], one entry right
    before each call of a strategy; [failures] is [strategiesFailures] as
    the loop leaves it, before the header is put in front. *)
Record Ended : Type := {
  settled : outcome exn SSH;
  self : SSH;
  failures : list string;
  tried : list SSHConnectionStrategyName
}.

Definition separator : string := Js.newline ++ "[-] ".
Definition header : string := "The following strategies were failed".

(** The loop, from the strategies still to try.  A strategy that returns
    returns [this], an object, so [if (strategyResult)] holds and the loop
    returns it.  The [catch] block logs [err.message] before it looks at
    the class of [err]: reading it throws a [TypeError] out of [connect]
    when [err] is [undefined] or [null]. *)
Fixpoint connect_from (strategiesNames : list SSHConnectionStrategyName)
    (strategiesFailures : list string)
    (logged : list SSHConnectionStrategyName) (this : SSH) : Ended :=
  match strategiesNames with
  | [] =>
      {| settled := Threw (AuthenticationFailed
                             (Js.join separator
                                (header :: strategiesFailures)));
         self := this; failures := strategiesFailures; tried := logged |}
  | strategyName :: rest =>
      let logged := (logged ++ [strategyName])%list in
      match strategies strategyName this with
      | (Returned tt, this) =>
          {| settled := Returned this; self := this;
             failures := strategiesFailures; tried := logged |}
      | (Threw err, this) =>
          if has_message err then
            match err with
            | AuthenticationStrategyFailed message =>
                connect_from rest (strategiesFailures ++ [message])%list
                  logged this
            | _ =>
                {| settled := Threw err; self := this;
                   failures := strategiesFailures; tried := logged |}
            end
          else
            {| settled := Threw TypeError; self := this;
               failures := strategiesFailures; tried := logged |}
      end
  end.

Definition connect (strategiesNames : list SSHConnectionStrategyName)
    (this : SSH) : Ended :=
  connect_from strategiesNames [] [] this.

(** The strategies of [names], run in order from [this], when each of
    them throws an [AuthenticationStrategyFailed]: their messages, in
    order, and the instance they leave.  [None] when one of them returns
    or throws anything else. *)
Fixpoint all_recoverable (names : list SSHConnectionStrategyName)
    (this : SSH) : option (list string * SSH) :=
  match names with
  | [] => Some ([], this)
  | strategyName :: rest =>
      match strategies strategyName this with
      | (Threw (AuthenticationStrategyFailed message), this) =>
          match all_recoverable rest this with
          | Some (messages, this) => Some (message :: messages, this)
          | None => None
          end
      | _ => None
      end
  end.

End Negotiation.

(** *** Envelopes and the version check *)

(** The cell of [const checkVersionCompatibility = R.once(...)], one per
    process; the argument and the result of the wrapped function are
    JavaScript values. *)
Definition VersionCell : Type := Once.cell Js.value Js.value.

(** Code that decodes envelopes runs over that cell. *)
Definition Rpc : Type -> Type := ST VersionCell exn.

Definition settled_value (r : outcome exn Js.value) : Js.value :=
  match r with
  | Returned v => v
  | Threw _ => Js.Undefined
  end.

(** [p && p.k] *)
Definition and_prop (p : Js.value) (k : string) : Js.value :=
  if Js.truthy p then Js.prop p k else p.

Section Commands.

(** [unpackCommand(data, base64)] of [../../../utils]; [None] when it
    throws. *)
Variable unpackCommand : Js.value -> bool -> option Js.value.
(** The function of [../check-version-compatibility]. *)
Variable checkVersionCompatibilityFunction : Js.value -> outcome exn Js.value.
(** [JSON.parse]; [None] when it throws. *)
Variable JSON_parse : string -> option Js.value.
Variable ComponentObjects_manyFromString : Js.value -> outcome exn Js.value.

Definition checkVersionCompatibility (version : Js.value)
  : Rpc (option Js.value) :=
  fun cell => Once.call checkVersionCompatibilityFunction cell version.

Definition _unpack (data : Js.value) (base64 : bool) : Rpc Js.value :=
  match unpackCommand data base64 with
  | Some unpacked => ret unpacked
  | None => throw (SSHInvalidResponse data)
  end.

(** [v.k], throwing on [undefined] and [null]. *)
Definition field (v : Js.value) (k : string) : Rpc Js.value :=
  match Js.get v k with
  | Some x => ret x
  | None => throw TypeError
  end.

(** [const { headers, payload } = v] *)
Definition destructure (v : Js.value) : Rpc (Js.value * Js.value) :=
  headers <- field v "headers" ;;
  payload <- field v "payload" ;;
  ret (headers, payload).

(** The [try]/[catch] that opens [errorHandler]: the value of
    [parsedError] after it, [undefined] when anything in the block threw. *)
Definition parsedErrorOf (err : Js.value) : Rpc Js.value :=
  try_catch
    (unpacked <- _unpack err false ;;
     hp <- destructure unpacked ;;
     version <- field (fst hp) "version" ;;
     checkVersionCompatibility version ;;;
     ret (snd hp))
    (fun _ => ret Js.Undefined).

Definition errorHandler (this : SSH) (code : Z) (err : Js.value)
  : VersionCell -> exn * VersionCell :=
  fun cell =>
    let (r, cell) := parsedErrorOf err cell in
    let parsedError := settled_value r in
    (if (code =? 127)%Z then
       ComponentNotFound (Js.or (and_prop parsedError "id") err)
     else if (code =? 128)%Z then
       PermissionDenied (host this ++ ":" ++ path this)
     else if (code =? 129)%Z then
       RemoteScopeNotFound (Js.or (and_prop parsedError "name") err)
     else if (code =? 130)%Z then
       PermissionDenied (host this ++ ":" ++ path this)
     else if (code =? 131)%Z then
       MergeConflictOnRemote
         (if Js.truthy (and_prop parsedError "idsAndVersions")
          then Js.prop parsedError "idsAndVersions" else Js.Arr [])
     else if (code =? 132)%Z then
       CustomError
         (if Js.truthy (and_prop parsedError "message")
          then Js.prop parsedError "message" else err)
     else if (code =? 133)%Z then
       OldClientVersion
         (if Js.truthy (and_prop parsedError "message")
          then Js.prop parsedError "message" else err)
     else if (code =? 134)%Z then
       let msg :=
         if Js.truthy (and_prop parsedError "message")
         then Js.prop parsedError "message" else err in
       let sourceScope :=
         if Js.truthy (and_prop parsedError "sourceScope")
         then Js.prop parsedError "sourceScope" else Js.Str "unknown" in
       let destinationScope :=
         if Js.truthy (and_prop parsedError "destinationScope")
         then Js.prop parsedError "destinationScope"
         else Js.Str "unknown" in
       ExportAnotherOwnerPrivate msg sourceScope destinationScope
     else
       UnexpectedNetworkError
         (if Js.truthy parsedError then Js.prop parsedError "message"
          else err),
     cell).

(** *** One execution stream

    [exec] returns a promise and registers four handlers on the stream.
    The variables the handlers share ([res], [err]), the callbacks
    [setTimeout] has queued and the state of the promise make up the
    state; each event of the stream, and each expiry of a queued timer,
    is one step.  The exit code is [None] when the transport reports
    [null] or [undefined]. *)

Inductive settlement : Type :=
| Resolved (value : string)
| Rejected (reason : exn).

Record Stream : Type := {
  res : string;
  err : Js.value;
  timers : list (option Z);
  promise : option settlement
}.

Inductive event : Type :=
| Data (response : string)
| StderrData (response : string)
| Exit (code : option Z)
| Close (code : option Z) (signal : Js.value)
| Expire.

Definition set_res (r : string) (st : Stream) : Stream :=
  {| res := r; err := err st; timers := timers st; promise := promise st |}.

Definition set_err (e : Js.value) (st : Stream) : Stream :=
  {| res := res st; err := e; timers := timers st; promise := promise st |}.

Definition set_timers (t : list (option Z)) (st : Stream) : Stream :=
  {| res := res st; err := err st; timers := t; promise := promise st |}.

(** [resolve(v)] and [reject(e)]: a promise keeps its first settlement. *)
Definition settle (s : settlement) (st : Stream) : Stream :=
  match promise st with
  | Some _ => st
  | None =>
      {| res := res st; err := err st; timers := timers st;
         promise := Some s |}
  end.

(** [promiseExit], the callback the ['exit'] handler queues:
    [code && code !== 0 ? reject(this.errorHandler(code, err))
                        : resolve(clean(res))].
    The ['close'] handler ends with the same expression.  [errorHandler]
    runs before [reject] is called, settled or not. *)
Definition promiseExit (this : SSH) (code : option Z) (st : Stream)
  : VersionCell -> Stream * VersionCell :=
  fun cell =>
    match code with
    | Some c =>
        if (c =? 0)%Z then (settle (Resolved (clean (res st))) st, cell)
        else
          let (e, cell) := errorHandler this c (err st) cell in
          (settle (Rejected e) st, cell)
    | None => (settle (Resolved (clean (res st))) st, cell)
    end.

(** [if (commandName === '_put') res = res.replace(payload, '')], the
    first line of the ['close'] handler. *)
Definition strip_echo (commandName payload : string) (st : Stream) : Stream :=
  if commandName =? "_put"
  then set_res (Js.replace_first payload (res st)) st
  else st.

(** The handlers.  [Expire] is the expiry of the oldest queued timer,
    2000 ms after the ['exit'] that queued it. *)
Definition handle (this : SSH) (commandName payload : string) (ev : event)
    (st : Stream) : VersionCell -> Stream * VersionCell :=
  fun cell =>
    match ev with
    | Data response => (set_res (res st ++ response) st, cell)
    | StderrData response => (set_err (Js.Str response) st, cell)
    | Exit code => (set_timers (timers st ++ [code])%list st, cell)
    | Expire =>
        match timers st with
        | [] => (st, cell)
        | code :: later => promiseExit this code (set_timers later st) cell
        end
    | Close code signal => promiseExit this code (strip_echo commandName payload st) cell
    end.

Fixpoint run (this : SSH) (commandName payload : string)
    (events : list event) (st : Stream) (cell : VersionCell)
  : Stream * VersionCell :=
  match events with
  | [] => (st, cell)
  | ev :: later =>
      let (st, cell) := handle this commandName payload ev st cell in
      run this commandName payload later st cell
  end.

Definition opened : Stream :=
  {| res := ""; err := Js.Undefined; timers := []; promise := None |}.

(** [return reject(reason)] before any handler is registered. *)
Definition failed (err reason : Js.value) : Stream :=
  {| res := ""; err := err; timers := [];
     promise := Some (Rejected (Foreign reason)) |}.

(** [exec(commandName, payload, context)].  The command line goes to the
    transport and is not looked at again; [exec_error] is the [error] the
    transport passes to the callback of [connection.exec], [events] what
    the stream then delivers.  Without a connection, or with an [error]
    that [if (error)] takes for one, no handler is registered. *)
Definition exec (this : SSH) (commandName payload : string)
    (exec_error : option Js.value) (events : list event)
    (cell : VersionCell) : Stream * VersionCell :=
  match connection this with
  | None =>
      let err := Js.Str "ssh connection is not defined" in
      (failed err err, cell)
  | Some _ =>
      match exec_error with
      | Some error =>
          if Js.truthy error then (failed Js.Undefined error, cell)
          else run this commandName payload events opened cell
      | None => run this commandName payload events opened cell
      end
  end.

(** *** The verbs, from the settlement of [exec] on *)

(** [.then(k)] on the promise of [exec]. *)
Definition and_then {A} (s : settlement) (k : string -> Rpc A) : Rpc A :=
  match s with
  | Resolved data => k data
  | Rejected reason => throw reason
  end.

(** The callback of [pushMany], after [this.exec('_put', ...)]. *)
Definition pushMany_then (data : string) : Rpc Js.value :=
  unpacked <- _unpack (Js.Str data) true ;;
  hp <- destructure unpacked ;;
  version <- field (fst hp) "version" ;;
  checkVersionCompatibility version ;;;
  field (snd hp) "ids".

Definition parseResponse (str : string) : Rpc Js.value :=
  match JSON_parse str with
  | Some results => ret results
  | None => throw (SSHInvalidResponse (Js.Str str))
  end.

(** The callback of [fetch], after [this.exec(`_fetch ${options}`, ...)]. *)
Definition fetch_then (str : string) : Rpc Js.value :=
  results <- parseResponse str ;;
  hp <- destructure results ;;
  version <- field (fst hp) "version" ;;
  checkVersionCompatibility version ;;;
  (fun cell => (ComponentObjects_manyFromString (snd hp), cell)).

Definition fetch (s : settlement) : Rpc Js.value := and_then s fetch_then.

Definition pushMany (s : settlement) : Rpc Js.value :=
  and_then s pushMany_then.

(** [pushMany] resolved on each of [datas] in turn, in one process: the
    cell after the last callback. *)
Fixpoint pushMany_each (datas : list string) (cell : VersionCell)
  : VersionCell :=
  match datas with
  | [] => cell
  | data :: later => pushMany_each later (snd (pushMany_then data cell))
  end.

(** A run of calls of [checkVersionCompatibility], one per decoded
    envelope, on the versions the envelopes carry; a throwing call does
    not stop the later ones, which belong to other operations. *)
Fixpoint check_all (versions : list Js.value) (cell : VersionCell)
  : VersionCell :=
  match versions with
  | [] => cell
  | version :: later =>
      check_all later (snd (checkVersionCompatibility version cell))
  end.

(** *** The other verbs *)

Variable RemovedObjects_fromObjects : Js.value -> outcome exn Js.value.
Variable ConsumerComponent_fromString : Js.value -> outcome exn Js.value.
Variable DependencyGraph_loadFromString : Js.value -> outcome exn Js.value.

(** A call of a collaborator that leaves the cell alone. *)
Definition lift {A} (r : outcome exn A) : Rpc A := fun cell => (r, cell).

(** The two lines most callbacks start with:
    [const { payload, headers } = this._unpack(data);
     checkVersionCompatibility(headers.version);]
    and the payload they go on with. *)
Definition unpack_checked (data : string) : Rpc Js.value :=
  unpacked <- _unpack (Js.Str data) true ;;
  hp <- destructure unpacked ;;
  version <- field (fst hp) "version" ;;
  checkVersionCompatibility version ;;;
  ret (snd hp).

(** [const { payload } = this._unpack(data)], the line the callbacks of
    [deleteMany], [deprecateMany] and [undeprecateMany] start with. *)
Definition unpack_payload (data : string) : Rpc Js.value :=
  unpacked <- _unpack (Js.Str data) true ;;
  field unpacked "payload".

Definition deleteMany_then (data : string) : Rpc Js.value :=
  payload <- unpack_payload data ;;
  lift (RemovedObjects_fromObjects payload).

Definition deprecateMany_then (data : string) : Rpc Js.value :=
  unpack_payload data.

Definition undeprecateMany_then (data : string) : Rpc Js.value :=
  unpack_payload data.

Definition deleteMany (s : settlement) : Rpc Js.value :=
  and_then s deleteMany_then.

Definition deprecateMany (s : settlement) : Rpc Js.value :=
  and_then s deprecateMany_then.

Definition undeprecateMany (s : settlement) : Rpc Js.value :=
  and_then s undeprecateMany_then.

(** [describeScope()], from the settlement of [this.exec('_scope')] on:
    the [.catch] sits behind the [.then], so it sees the rejections of
    [exec] and the exceptions of the callback alike. *)
Definition describeScope (this : SSH) (s : settlement) : Rpc Js.value :=
  try_catch (and_then s unpack_checked)
    (fun _ => throw (RemoteScopeNotFound (Js.Str (path this)))).

Definition latestVersions (s : settlement) : Rpc Js.value :=
  and_then s unpack_checked.

Definition search (s : settlement) : Rpc Js.value :=
  and_then s unpack_checked.

(** [return str ? ConsumerComponent.fromString(payload) : null] *)
Definition show_then (str : string) : Rpc Js.value :=
  payload <- unpack_checked str ;;
  if str =? "" then ret Js.Null
  else lift (ConsumerComponent_fromString payload).

Definition show (s : settlement) : Rpc Js.value := and_then s show_then.

Definition graph_then (str : string) : Rpc Js.value :=
  payload <- unpack_checked str ;;
  lift (DependencyGraph_loadFromString payload).

Definition graph (s : settlement) : Rpc Js.value := and_then s graph_then.

End Commands.

(** *** The command line *)

Section CommandLine.

(** [toBase64], [buildCommandMessage] and [packCommand] of
    [../../../utils]; the value [globalConfig.getSync(CFG_SSH_NO_COMPRESS)]
    returns.  A context is an object or [undefined] ([None]). *)
Variable toBase64 : string -> string.
Variable buildCommandMessage :
  Js.value -> option (list (string * Js.value)) -> bool -> Js.value.
Variable packCommand : Js.value -> bool -> bool -> string.
Variable ssh_no_compress : Js.value.

Definition buildCmd (commandName path : string) (payload : Js.value)
    (context : option (list (string * Js.value))) : string :=
  let compress := negb (Js.is_str ssh_no_compress "true") in
  "bit " ++ commandName ++ " " ++ toBase64 path ++ " "
  ++ packCommand (buildCommandMessage payload context compress) true compress.

(** [o[k] = v] on the fields of an object. *)
Fixpoint set_field (k : string) (v : Js.value)
    (fields : list (string * Js.value)) : list (string * Js.value) :=
  match fields with
  | [] => [(k, v)]
  | (k', v') :: rest =>
      if k' =? k then (k, v) :: rest else (k', v') :: set_field k v rest
  end.

(** The first lines of [exec]:
    [if (this._sshUsername) { context = context || {};
                              context.sshUsername = this._sshUsername; }] *)
Definition exec_context (this : SSH)
    (context : option (list (string * Js.value)))
  : option (list (string * Js.value)) :=
  match _sshUsername this with
  | Some u =>
      if u =? "" then context
      else Some (set_field "sshUsername" (Js.Str u)
                   (match context with
                    | Some fields => fields
                    | None => []
                    end))
  | None => context
  end.

(** [cmd], the command line [exec] hands to [connection.exec];
    [this.path || ''] on a string is the string. *)
Definition exec_cmd (this : SSH) (commandName : string) (payload : Js.value)
    (context : option (list (string * Js.value))) : string :=
  buildCmd commandName (absolutePath (path this))
    (if commandName =? "_put" then Js.Null else payload)
    (exec_context this context).

End CommandLine.

End SSH.

(* ================================================================== *)
(** ** The specification's wording, as definitions

    Each definition here follows a sentence of the specification, not the
    code; the theorems compare the two. *)

Module Spec.

(** "payload.k, else [fallback]": the field of the decoded payload when
    there is one to carry. *)
Definition carried (payload : Js.value) (k : string) (fallback : Js.value)
  : Js.value :=
  match Js.get payload k with
  | Some v => if Js.truthy v then v else fallback
  | None => fallback
  end.

(** The exit-code table of section 4.3; [scope] is host and path,
    [payload] the decoded error payload ([undefined] when the text did not
    decode), [raw] the raw text.  The kind the table calls
    GenericRemoteError is the class [CustomError]. *)
Definition translate (scope : string) (code : Z) (payload raw : Js.value)
  : SSH.exn :=
  if (code =? 127)%Z then SSH.ComponentNotFound (carried payload "id" raw)
  else if (code =? 128)%Z then SSH.PermissionDenied scope
  else if (code =? 129)%Z then
    SSH.RemoteScopeNotFound (carried payload "name" raw)
  else if (code =? 130)%Z then SSH.PermissionDenied scope
  else if (code =? 131)%Z then
    SSH.MergeConflictOnRemote (carried payload "idsAndVersions" (Js.Arr []))
  else if (code =? 132)%Z then SSH.CustomError (carried payload "message" raw)
  else if (code =? 133)%Z then
    SSH.OldClientVersion (carried payload "message" raw)
  else if (code =? 134)%Z then
    SSH.ExportAnotherOwnerPrivate
      (carried payload "message" raw)
      (carried payload "sourceScope" (Js.Str "unknown"))
      (carried payload "destinationScope" (Js.Str "unknown"))
  else SSH.UnexpectedNetworkError (carried payload "message" raw).

(** "exactly once per distinct value": the versions that get checked are
    the first occurrences of each value. *)
Fixpoint first_occurrences (seen versions : list string) : list string :=
  match versions with
  | [] => []
  | v :: later =>
      if existsb (String.eqb v) seen then first_occurrences seen later
      else v :: first_occurrences (v :: seen) later
  end.

Definition checked_versions (versions : list string) : list string :=
  first_occurrences [] versions.

(** "trailing newline characters trimmed" *)
Fixpoint trim_trailing_newlines (s : string) : string :=
  match s with
  | EmptyString => EmptyString
  | String c rest =>
      let rest := trim_trailing_newlines rest in
      if (Ascii.eqb c (ascii_of_nat 10)) && (rest =? "") then EmptyString
      else String c rest
  end.

(** "any substring that exactly echoes the original payload removed":
    every occurrence, left to right; [skip] counts the characters of an
    occurrence still to drop. *)
Fixpoint remove_all_from (skip : nat) (pat s : string) : string :=
  match s with
  | EmptyString => EmptyString
  | String c rest =>
      match skip with
      | S k => remove_all_from k pat rest
      | O =>
          if negb (pat =? "") && String.prefix pat s
          then remove_all_from (String.length pat - 1) pat rest
          else String c (remove_all_from 0 pat rest)
      end
  end.

Definition remove_all (pat s : string) : string := remove_all_from 0 pat s.

(** "Exit code 0 -> resolved value" *)
Definition resolved_value (commandName payload stdout : string) : string :=
  trim_trailing_newlines
    (if commandName =? "_put" then remove_all payload stdout else stdout).


(** "the original error propagates to the caller unchanged", for the
    transport failure of the example: the error object of the transport,
    thrown as it is. *)
Definition original_error (err : SSH.TransportError) : SSH.exn :=
  SSH.Foreign
    (Js.Obj [("message", Js.Str (SSH.err_message err));
             ("code", SSH.err_code err);
             ("host", Js.Str (SSH.err_host err));
             ("port", Js.Str (SSH.err_port err))]).

(** "the concatenation, in arrival order, of every stderr chunk" *)
Definition stderr_text (chunks : list string) : string :=
  String.concat "" chunks.

End Spec.

(* ================================================================== *)
(** ** What a stream has delivered *)

(** The ['data'] chunks of [events], concatenated in order. *)
Fixpoint stdout_of (events : list SSH.event) : string :=
  match events with
  | [] => ""
  | SSH.Data response :: later => response ++ stdout_of later
  | _ :: later => stdout_of later
  end.

(** The last [stderr] chunk of [events], [before] when there is none. *)
Fixpoint last_stderr (before : Js.value) (events : list SSH.event)
  : Js.value :=
  match events with
  | [] => before
  | SSH.StderrData response :: later => last_stderr (Js.Str response) later
  | _ :: later => last_stderr before later
  end.

(** [events] holds chunks only: no ['exit'], no ['close'], no timer. *)
Fixpoint chunks_only (events : list SSH.event) : bool :=
  match events with
  | [] => true
  | SSH.Data _ :: later | SSH.StderrData _ :: later => chunks_only later
  | _ :: _ => false
  end.

(** The settlement [promiseExit] asks for, from the exit code and the two
    variables [res] and [err]. *)
Definition verdict (unpackCommand : Js.value -> bool -> option Js.value)
    (check : Js.value -> outcome SSH.exn Js.value) (this : SSH.SSH)
    (code : option Z) (res : string) (err : Js.value)
    (cell : SSH.VersionCell) : SSH.settlement :=
  match code with
  | Some c =>
      if (c =? 0)%Z then SSH.Resolved (SSH.clean res)
      else SSH.Rejected (fst (SSH.errorHandler unpackCommand check this c err cell))
  | None => SSH.Resolved (SSH.clean res)
  end.

(** The cell lets a call of [checkVersionCompatibility] on [version]
    through without an exception: it has been used already, or the
    wrapped function returns. *)
Definition lets_through (check : Js.value -> outcome SSH.exn Js.value)
    (version : Js.value) (cell : SSH.VersionCell) : Prop :=
  Once.called cell = true \/ exists r, check version = Returned r.

(** [data] decodes, with the packed-envelope codec, to an envelope whose
    header carries [version]. *)
Definition carries_version
    (unpackCommand : Js.value -> bool -> option Js.value)
    (data : string) (version : Js.value) : Prop :=
  exists unpacked headers,
    unpackCommand (Js.Str data) true = Some unpacked /\
    Js.get unpacked "headers" = Some headers /\
    Js.get headers "version" = Some version.

(** No occurrence of [pat] in [before ++ rest] starts inside [before]. *)
Fixpoint none_earlier (pat before rest : string) : bool :=
  match before with
  | EmptyString => true
  | String c before' =>
      negb (String.prefix pat (before ++ rest))
      && none_earlier pat before' rest
  end.

(** [data] decodes, with the packed-envelope codec, to an envelope with
    the given header version and payload. *)
Definition decodes_to
    (unpackCommand : Js.value -> bool -> option Js.value)
    (data : string) (version payload : Js.value) : Prop :=
  exists unpacked headers,
    unpackCommand (Js.Str data) true = Some unpacked /\
    Js.get unpacked "headers" = Some headers /\
    Js.get unpacked "payload" = Some payload /\
    Js.get headers "version" = Some version.

(** Two instances name the same scope on the same server as the same
    user. *)
Definition same_address (a b : SSH.SSH) : Prop :=
  SSH.path a = SSH.path b /\ SSH.username a = SSH.username b
  /\ SSH.port a = SSH.port b /\ SSH.host a = SSH.host b.

(** Every ['exit'] and ['close'] of [events] reports success: the code
    is [0], [null] or [undefined]. *)
Fixpoint all_zero (events : list SSH.event) : bool :=
  match events with
  | [] => true
  | SSH.Exit (Some c) :: later | SSH.Close (Some c) _ :: later =>
      (c =? 0)%Z && all_zero later
  | _ :: later => all_zero later
  end.

(* ================================================================== *)
(** ** Small collaborators to run the definitions on *)

Module Demo.

Definition envelope (version : string) (payload : Js.value) : Js.value :=
  Js.Obj [("headers", Js.Obj [("version", Js.Str version)]);
          ("payload", payload)].

(** A codec that knows four messages. *)
Definition wire : list (string * Js.value) :=
  [("E1", envelope "1" (Js.Obj []));
   ("E2", envelope "2" (Js.Obj [("ids", Js.Arr [])]));
   ("E3", envelope "1" (Js.Obj [("ids", Js.Arr [Js.Str "my/comp"])]));
   ("E4", envelope "1" (Js.Obj [("message", Js.Str "blocked")]))].

Fixpoint lookup (k : string) (table : list (string * Js.value))
  : option Js.value :=
  match table with
  | [] => None
  | (k', v) :: rest => if k' =? k then Some v else lookup k rest
  end.

Definition unpackCommand (data : Js.value) (base64 : bool)
  : option Js.value :=
  match data with
  | Js.Str s => lookup s wire
  | _ => None
  end.

Definition JSON_parse (str : string) : option Js.value := lookup str wire.

Definition compatible (version : Js.value) : outcome SSH.exn Js.value :=
  Returned Js.Undefined.

Definition manyFromString (payload : Js.value) : outcome SSH.exn Js.value :=
  Returned payload.

(** No credential on the machine, and a user who dismisses the prompt:
    the prompt rejects with [undefined]. *)
Definition prompt_dismissed : SSH.Env :=
  {| SSH.globalFlags_token := Js.Undefined;
     SSH.config_user_token := Js.Undefined;
     SSH.SSH_AUTH_SOCK := Js.Undefined;
     SSH.keyGetter := Returned Js.Null;
     SSH.promptUserpass := Threw (SSH.Foreign Js.Undefined);
     SSH.handshake := fun cfg => Returned {| SSH.opened_with := cfg |};
     SSH.process_platform := "linux";
     SSH.os_release := "6.1" |}.

(** A version check that rejects every version. *)
Definition incompatible (version : Js.value) : outcome SSH.exn Js.value :=
  Threw (SSH.GeneralError "incompatible versions").

(** A token, and a server that refuses it and takes the key. *)
Definition stale_token : SSH.Env :=
  {| SSH.globalFlags_token := Js.Undefined;
     SSH.config_user_token := Js.Str "T0";
     SSH.SSH_AUTH_SOCK := Js.Undefined;
     SSH.keyGetter := Returned (Js.Str "KEY");
     SSH.promptUserpass := Returned ("me", "secret");
     SSH.handshake := fun cfg =>
       if Js.truthy (SSH.cfg_privateKey cfg)
       then Returned {| SSH.opened_with := cfg |}
       else Threw {| SSH.err_message := SSH.AUTH_FAILED_MESSAGE;
                     SSH.err_code := Js.Undefined;
                     SSH.err_host := "undefined";
                     SSH.err_port := "undefined" |};
     SSH.process_platform := "linux";
     SSH.os_release := "6.1" |}.

Definition config : SSH.SSHConfig :=
  {| SSH.cfg_username := "git"; SSH.cfg_host := "hub.example";
     SSH.cfg_port := 22; SSH.cfg_passphrase := Js.Undefined;
     SSH.cfg_readyTimeout := 99000; SSH.cfg_password := Js.Undefined;
     SSH.cfg_agent := Js.Undefined; SSH.cfg_privateKey := Js.Str "KEY" |}.

Definition offline : SSH.SSH :=
  SSH.constructor "scopes/main" "git" 22 "hub.example".

Definition online : SSH.SSH :=
  SSH.set_connection {| SSH.opened_with := config |} offline.

Definition refused : SSH.TransportError :=
  {| SSH.err_message := SSH.AUTH_FAILED_MESSAGE;
     SSH.err_code := Js.Undefined; SSH.err_host := "undefined";
     SSH.err_port := "undefined" |}.

Definition unresolved : SSH.TransportError :=
  {| SSH.err_message := "getaddrinfo ENOTFOUND hub.example";
     SSH.err_code := Js.Str "ENOTFOUND"; SSH.err_host := "hub.example";
     SSH.err_port := "22" |}.

(** No token, no agent, a key file; the server takes the key. *)
Definition key_only : SSH.Env :=
  {| SSH.globalFlags_token := Js.Undefined;
     SSH.config_user_token := Js.Undefined;
     SSH.SSH_AUTH_SOCK := Js.Undefined;
     SSH.keyGetter := Returned (Js.Str "KEY");
     SSH.promptUserpass := Returned ("me", "secret");
     SSH.handshake := fun cfg =>
       if Js.truthy (SSH.cfg_privateKey cfg)
       then Returned {| SSH.opened_with := cfg |} else Threw refused;
     SSH.process_platform := "linux";
     SSH.os_release := "6.1" |}.

(** The same, with a host name that does not resolve. *)
Definition no_such_host : SSH.Env :=
  {| SSH.globalFlags_token := Js.Undefined;
     SSH.config_user_token := Js.Undefined;
     SSH.SSH_AUTH_SOCK := Js.Undefined;
     SSH.keyGetter := Returned (Js.Str "KEY");
     SSH.promptUserpass := Returned ("me", "secret");
     SSH.handshake := fun _ => Threw unresolved;
     SSH.process_platform := "linux";
     SSH.os_release := "6.1" |}.

(** No token, no agent, no key, and a server that refuses everybody. *)
Definition locked_out : SSH.Env :=
  {| SSH.globalFlags_token := Js.Undefined;
     SSH.config_user_token := Js.Undefined;
     SSH.SSH_AUTH_SOCK := Js.Undefined;
     SSH.keyGetter := Returned Js.Null;
     SSH.promptUserpass := Returned ("me", "secret");
     SSH.handshake := fun _ => Threw refused;
     SSH.process_platform := "linux";
     SSH.os_release := "6.1" |}.

End Demo.

(* ================================================================== *)
(** ** Facts about [remote.ts] *)

Module RemoteFacts.

Lemma or_empty (s : string) : (if s =? "" then "" else s) = s.
Proof.
  destruct (s =? "") eqn:E; [symmetry; now apply String.eqb_eq | reflexivity].
Qed.

(** [Remote.load(name, host)] hands its arguments to the constructor,
    whose parameters are [(host, name, primary)], in the order
    [(name, host, primary)]: the [host] field of the result is the given
    name, passed through [cleanBang] when it holds a ['!'], and the [name]
    field is the given host. *)
Lemma load_swaps_name_and_host :
  forall (cleanBang : string -> string) (name host : string),
    Remote.host (Remote.load cleanBang name host)
      = (if Remote.isPrimary name then cleanBang name else name)
    /\ Remote.name (Remote.load cleanBang name host) = host
    /\ Remote.primary (Remote.load cleanBang name host)
       = Js.includes name "!".
Proof.
  intros cleanBang name host. unfold Remote.load, Remote.constructor; simpl.
  repeat split. apply or_empty.
Qed.

End RemoteFacts.

(* ================================================================== *)
(** ** Facts about the error translator *)

Module TranslatorFacts.

Section Translator.

Variable unpackCommand : Js.value -> bool -> option Js.value.
Variable check : Js.value -> outcome SSH.exn Js.value.

Local Notation "'parsedErrorOf'" := (SSH.parsedErrorOf unpackCommand check).
Local Notation "'errorHandler'" := (SSH.errorHandler unpackCommand check).
Local Notation "'passes'" := (lets_through check).

Lemma once_call_passes version cell :
  passes version cell ->
  exists r cell', Once.call check cell version = (Returned r, cell').
Proof.
  unfold lets_through, Once.call. intros [H | [r H]].
  - rewrite H. eauto.
  - destruct (Once.called cell); [eauto |]. rewrite H. eauto.
Qed.

(** The [try] block never lets an exception out. *)
Lemma parsedErrorOf_returns err cell :
  exists p cell', parsedErrorOf err cell = (Returned p, cell').
Proof.
  unfold SSH.parsedErrorOf, try_catch.
  match goal with |- context [match ?m cell with _ => _ end] =>
    destruct (m cell) as [[p | e] cell'] end; unfold ret; eauto.
Qed.

Lemma parsedErrorOf_decoded err unpacked headers payload version cell :
  unpackCommand err false = Some unpacked ->
  Js.get unpacked "headers" = Some headers ->
  Js.get unpacked "payload" = Some payload ->
  Js.get headers "version" = Some version ->
  passes version cell ->
  exists cell', parsedErrorOf err cell = (Returned payload, cell').
Proof.
  intros Hu Hh Hp Hv Hc.
  destruct (once_call_passes _ _ Hc) as (r & cell' & Hcall).
  exists cell'.
  unfold SSH.parsedErrorOf, try_catch, bind, SSH._unpack, SSH.destructure,
    SSH.field, SSH.checkVersionCompatibility, bind, ret.
  rewrite Hu; simpl. rewrite Hh, Hp; simpl. rewrite Hv; simpl.
  rewrite Hcall. reflexivity.
Qed.

Lemma parsedErrorOf_undecodable err cell :
  unpackCommand err false = None ->
  parsedErrorOf err cell = (Returned Js.Undefined, cell).
Proof.
  intros Hu.
  unfold SSH.parsedErrorOf, try_catch, bind, SSH._unpack, throw, ret.
  rewrite Hu. reflexivity.
Qed.

Lemma and_prop_truthy p k :
  Js.truthy (SSH.and_prop p k) = true -> SSH.and_prop p k = Js.prop p k.
Proof.
  unfold SSH.and_prop. destruct (Js.truthy p) eqn:E; [reflexivity |].
  intros H. rewrite H in E. discriminate.
Qed.

Lemma truthy_and_prop p k :
  Js.truthy (SSH.and_prop p k) = Js.truthy p && Js.truthy (Js.prop p k).
Proof.
  unfold SSH.and_prop. destruct (Js.truthy p) eqn:E; [reflexivity | exact E].
Qed.

Lemma prop_falsy p k : Js.truthy p = false -> Js.truthy (Js.prop p k) = false.
Proof.
  destruct p; simpl; try reflexivity; try discriminate.
Qed.

(** The three shapes the source gives to "the field, else the fallback"
    agree with the table's reading. *)
Lemma guarded_is_carried p k fallback :
  (if Js.truthy (SSH.and_prop p k) then Js.prop p k else fallback)
  = Spec.carried p k fallback.
Proof.
  rewrite truthy_and_prop. unfold Spec.carried, Js.prop.
  destruct p as [| | b | n | s | items | fields]; simpl;
    rewrite ?andb_false_r; reflexivity.
Qed.

Lemma or_is_carried p k fallback :
  Js.or (SSH.and_prop p k) fallback = Spec.carried p k fallback.
Proof.
  rewrite <- guarded_is_carried. unfold Js.or.
  destruct (Js.truthy (SSH.and_prop p k)) eqn:E; [| reflexivity].
  now apply and_prop_truthy.
Qed.

(** Rows 127 to 134 follow the table for every payload; the last row
    follows it when nothing decoded and when the payload has a message. *)
Lemma errorHandler_follows_table this code err cell :
  let p := SSH.settled_value (fst (parsedErrorOf err cell)) in
  (127 <= code <= 134)%Z \/ Js.truthy p = false
    \/ Js.truthy (Js.prop p "message") = true ->
  fst (errorHandler this code err cell)
  = Spec.translate (SSH.host this ++ ":" ++ SSH.path this) code p err.
Proof.
  intros p H. subst p. unfold SSH.errorHandler, Spec.translate.
  destruct (parsedErrorOf err cell) as [r cell']; simpl in *.
  set (p := SSH.settled_value r) in *.
  repeat match goal with
         | |- context [(code =? ?n)%Z] =>
             destruct (Z.eqb_spec code n);
             [now rewrite ?guarded_is_carried, ?or_is_carried |]
         end.
  f_equal. destruct H as [H | [H | H]]; [lia | |].
  - rewrite H. unfold Spec.carried.
    destruct p as [| | b | z | s | items | fields]; simpl in *;
      try discriminate; try reflexivity; rewrite H; reflexivity.
  - unfold Spec.carried, Js.prop in *.
    destruct p as [| | b | z | s | items | fields]; simpl in *;
      try discriminate; rewrite H; reflexivity.
Qed.

(** C1, at the input where the code leaves the table.  For an exit code
    outside 127..134 and an error text that decodes to an envelope whose
    payload is an object without a [message], the translator returns
    [UnexpectedNetworkError(undefined)]; the table gives the raw text, as
    row 132 of the same function does on the same input. *)
Theorem errorHandler_other_code_drops_raw_text :
  forall this code err headers version cell,
    unpackCommand err false
      = Some (Js.Obj [("headers", headers); ("payload", Js.Obj [])]) ->
    Js.get headers "version" = Some version ->
    passes version cell ->
    (code < 127 \/ 134 < code)%Z ->
    fst (errorHandler this code err cell)
      = SSH.UnexpectedNetworkError Js.Undefined
    /\ Spec.translate (SSH.host this ++ ":" ++ SSH.path this) code
         (Js.Obj []) err
       = SSH.UnexpectedNetworkError err
    /\ fst (errorHandler this 132 err cell) = SSH.CustomError err.
Proof.
  intros this code err headers version cell Hu Hv Hc Hcode.
  destruct (parsedErrorOf_decoded err _ headers (Js.Obj []) version cell
              Hu eq_refl eq_refl Hv Hc) as [cell' Hp].
  assert (Hne : forall n, (127 <= n <= 134)%Z -> (code =? n)%Z = false)
    by (intros n Hn; apply Z.eqb_neq; lia).
  repeat split.
  - unfold SSH.errorHandler. rewrite Hp; simpl.
    rewrite !Hne by lia. reflexivity.
  - unfold Spec.translate. rewrite !Hne by lia. reflexivity.
  - unfold SSH.errorHandler. rewrite Hp. reflexivity.
Qed.

End Translator.

Lemma errorHandler_other_code_drops_raw_text_witness :
  fst (SSH.errorHandler Demo.unpackCommand Demo.compatible Demo.online 1
         (Js.Str "E1") Once.fresh)
    = SSH.UnexpectedNetworkError Js.Undefined
  /\ Spec.translate "hub.example:scopes/main" 1 (Js.Obj []) (Js.Str "E1")
     = SSH.UnexpectedNetworkError (Js.Str "E1")
  /\ fst (SSH.errorHandler Demo.unpackCommand Demo.compatible Demo.online
            132 (Js.Str "E1") Once.fresh)
     = SSH.CustomError (Js.Str "E1").
Proof.
  apply (errorHandler_other_code_drops_raw_text Demo.unpackCommand
           Demo.compatible Demo.online 1 (Js.Str "E1")
           (Js.Obj [("version", Js.Str "1")]) (Js.Str "1") Once.fresh).
  - reflexivity.
  - reflexivity.
  - right. exists Js.Undefined. reflexivity.
  - left. lia.
Defined.

End TranslatorFacts.

(* ================================================================== *)
(** ** Facts about the negotiation *)

Module NegotiationFacts.

Lemma append_assoc (a b c : string) : (a ++ b) ++ c = a ++ (b ++ c).
Proof.
  induction a as [| x a IH]; simpl; [reflexivity | now rewrite IH].
Qed.

Lemma append_nil_r (a : string) : a ++ "" = a.
Proof.
  induction a as [| x a IH]; simpl; [reflexivity | now rewrite IH].
Qed.

(** [join] puts the separator in front of every element but the first. *)
Lemma join_cons sep h (ms : list string) :
  Js.join sep (h :: ms)
  = h ++ String.concat "" (map (fun m => sep ++ m) ms).
Proof.
  unfold Js.join. revert h.
  induction ms as [| m ms IH]; intros h.
  - simpl. now rewrite append_nil_r.
  - change (String.concat sep (h :: m :: ms))
      with (h ++ sep ++ String.concat sep (m :: ms)).
    rewrite IH. f_equal.
    destruct ms as [| m' ms]; simpl.
    + now rewrite append_nil_r.
    + symmetry. apply append_assoc.
Qed.

Lemma nth_error_firstn {A} (l : list A) :
  forall i x, nth_error l i = Some x ->
    l = (firstn i l ++ x :: skipn (S i) l)%list
    /\ firstn (S i) l = (firstn i l ++ [x])%list.
Proof.
  induction l as [| a l IH]; intros [| i] x H; simpl in *; try discriminate.
  - inversion H. split; reflexivity.
  - destruct (IH i x H) as [H1 H2]. split.
    + f_equal. exact H1.
    + f_equal. exact H2.
Qed.

Section Negotiation.

Variable DEFAULT_SSH_READY_TIMEOUT : Z.
Variable env : SSH.Env.

Local Notation "'strategies'" := (SSH.strategies DEFAULT_SSH_READY_TIMEOUT env).
Local Notation "'connect_from'" :=
  (SSH.connect_from DEFAULT_SSH_READY_TIMEOUT env).
Local Notation "'connect'" := (SSH.connect DEFAULT_SSH_READY_TIMEOUT env).
Local Notation "'all_recoverable'" :=
  (SSH.all_recoverable DEFAULT_SSH_READY_TIMEOUT env).
Local Notation "'_connectWithConfig'" := (SSH._connectWithConfig env).

(** Strategies that fail recoverably are passed over: the loop goes on
    from the next one with their messages pushed and their names logged. *)
Lemma connect_from_recoverable pre :
  forall rest fs lg this ms this',
    all_recoverable pre this = Some (ms, this') ->
    connect_from (pre ++ rest)%list fs lg this
    = connect_from rest (fs ++ ms)%list (lg ++ pre)%list this'.
Proof.
  induction pre as [| n pre IH]; intros rest fs lg this ms this' H.
  - inversion H; subst. now rewrite !app_nil_r.
  - simpl in H |- *.
    destruct (strategies n this) as [[[] | e] this1]; try discriminate.
    destruct e; try discriminate.
    destruct (all_recoverable pre this1) as [[ms1 t] |] eqn:E; try discriminate.
    inversion H; subst.
    rewrite (IH rest _ _ this1 ms1 this' E), <- !app_assoc. reflexivity.
Qed.

Lemma all_recoverable_length names :
  forall this ms this',
    all_recoverable names this = Some (ms, this') ->
    length ms = length names.
Proof.
  induction names as [| n names IH]; intros this ms this' H; simpl in H.
  - inversion H. reflexivity.
  - destruct (strategies n this) as [[[] | e] this1]; try discriminate.
    destruct e; try discriminate.
    destruct (all_recoverable names this1) as [[ms1 t] |] eqn:E; try discriminate.
    inversion H; subst. simpl. f_equal. eapply IH; eassumption.
Qed.

(** A handshake is the only way to a connection. *)
Lemma connectWithConfig_returned cfg ty msg this this' :
  _connectWithConfig cfg ty msg this = (Returned tt, this') ->
  exists conn,
    SSH.handshake env cfg = Returned conn
    /\ this' = SSH.set_connection conn this.
Proof.
  unfold SSH._connectWithConfig.
  destruct (SSH.handshake env cfg) as [conn | err].
  - intros H. inversion H. eauto.
  - repeat match goal with
           | |- context [if ?b then _ else _] => destruct b
           end; discriminate.
Qed.

Lemma strategy_returned_connected n this this' :
  strategies n this = (Returned tt, this') ->
  exists cfg conn,
    SSH.handshake env cfg = Returned conn
    /\ SSH.connection this' = Some conn.
Proof.
  assert (K : forall cfg ty msg t,
             _connectWithConfig cfg ty msg t = (Returned tt, this') ->
             exists cfg conn, SSH.handshake env cfg = Returned conn
                              /\ SSH.connection this' = Some conn).
  { intros cfg ty msg t H.
    destruct (connectWithConfig_returned _ _ _ _ _ H) as (conn & Hh & ->).
    exists cfg, conn. split; [exact Hh | reflexivity]. }
  destruct n; simpl;
    unfold SSH._tokenAuthentication, SSH._anonymousAuthentication,
      SSH._sshAgentAuthentication, SSH._sshKeyAuthentication,
      SSH._userPassAuthentication, SSH._composeTokenAuthObject,
      SSH._composeAnonymousAuthObject, SSH._composeUserPassObject,
      bind, throw.
  - destruct (Js.truthy _); [apply K | discriminate].
  - destruct (negb _); [discriminate | apply K].
  - destruct (SSH.keyGetter env) as [k | e]; [| discriminate].
    destruct (negb _); [discriminate | apply K].
  - destruct (SSH.promptUserpass env) as [[u p] | e]; [apply K | discriminate].
  - apply K.
Qed.

(** An unresolved host is not a failure of the strategy: the error that
    leaves [_connectWithConfig] is a [GeneralError]. *)
Lemma unresolved_host_is_unexpected cfg ty msg this err :
  SSH.handshake env cfg = Threw err ->
  SSH.err_message err <> SSH.AUTH_FAILED_MESSAGE ->
  Js.is_str (SSH.err_code err) "ENOTFOUND" = true ->
  exists text,
    _connectWithConfig cfg ty msg this = (Threw (SSH.GeneralError text), this).
Proof.
  intros Hh Hm Hc. unfold SSH._connectWithConfig. rewrite Hh.
  apply String.eqb_neq in Hm. rewrite Hm, Hc. eauto.
Qed.

(** C3. When the strategies before index [i] have failed recoverably and
    the strategy at index [i] succeeds, [connect] resolves with the
    instance that strategy left, which holds the connection of a
    successful handshake, and the strategies tried are exactly those at
    indices [0..i]: none after [i]. *)
Theorem connect_stops_at_first_success :
  forall names i n this ms this1 this2,
    nth_error names i = Some n ->
    all_recoverable (firstn i names) this = Some (ms, this1) ->
    strategies n this1 = (Returned tt, this2) ->
    SSH.settled (connect names this) = Returned this2
    /\ SSH.tried (connect names this) = firstn (S i) names
    /\ exists cfg conn,
         SSH.handshake env cfg = Returned conn
         /\ SSH.connection this2 = Some conn.
Proof.
  intros names i n this ms this1 this2 Hn Hpre Hs.
  destruct (nth_error_firstn names i n Hn) as [Hsplit Hfirst].
  rewrite Hfirst. clear Hfirst.
  assert (E : connect names this
              = connect (firstn i names ++ n :: skipn (S i) names)%list this)
    by (rewrite <- Hsplit; reflexivity).
  rewrite E. unfold SSH.connect.
  rewrite (connect_from_recoverable _ _ _ _ _ _ _ Hpre). simpl.
  rewrite Hs. simpl.
  repeat split. eapply strategy_returned_connected; eassumption.
Qed.

(** The text of the [GeneralError] an unresolved host is reported with. *)
Lemma unresolved_host_text cfg ty msg this err :
  SSH.handshake env cfg = Threw err ->
  SSH.err_message err <> SSH.AUTH_FAILED_MESSAGE ->
  Js.is_str (SSH.err_code err) "ENOTFOUND" = true ->
  _connectWithConfig cfg ty msg this
  = (Threw (SSH.GeneralError
              ("unable to find the SSH server. host: " ++ SSH.err_host err
               ++ ", port: " ++ SSH.err_port err
               ++ ". Original error message: " ++ SSH.err_message err)),
     this).
Proof.
  intros Hh Hm Hc. unfold SSH._connectWithConfig. rewrite Hh.
  apply String.eqb_neq in Hm. now rewrite Hm, Hc.
Qed.

(** C4, as amended.  When the strategies before index [i] have failed
    recoverably and the strategy at index [i] throws an error object
    (anything but [undefined] and [null]) that is not an
    [AuthenticationStrategyFailed], [connect] rejects with that very
    error, the strategies tried are exactly those at indices [0..i], and
    the failure list holds the earlier messages only.  A handshake error
    with code [ENOTFOUND], whose message is not the generic
    authentication one, leaves the strategy not as the error of the
    transport but as a new [GeneralError] with the text
    [unable to find the SSH server. host: .., port: ... Original error
    message: ..]. *)
Theorem connect_halts_on_unexpected_error_object :
  forall names i n this ms this1 this2 e,
    nth_error names i = Some n ->
    all_recoverable (firstn i names) this = Some (ms, this1) ->
    strategies n this1 = (Threw e, this2) ->
    (forall m, e <> SSH.AuthenticationStrategyFailed m) ->
    SSH.has_message e = true ->
    (SSH.settled (connect names this) = Threw e
     /\ SSH.tried (connect names this) = firstn (S i) names
     /\ SSH.failures (connect names this) = ms)
    /\ (forall cfg ty msg t err,
          SSH.handshake env cfg = Threw err ->
          SSH.err_message err <> SSH.AUTH_FAILED_MESSAGE ->
          Js.is_str (SSH.err_code err) "ENOTFOUND" = true ->
          _connectWithConfig cfg ty msg t
          = (Threw (SSH.GeneralError
                      ("unable to find the SSH server. host: "
                       ++ SSH.err_host err ++ ", port: " ++ SSH.err_port err
                       ++ ". Original error message: "
                       ++ SSH.err_message err)), t)).
Proof.
  intros names i n this ms this1 this2 e Hn Hpre Hs He Hm.
  split; [| intros; eapply unresolved_host_text; eassumption].
  destruct (nth_error_firstn names i n Hn) as [Hsplit Hfirst].
  rewrite Hfirst. clear Hfirst.
  assert (E : connect names this
              = connect (firstn i names ++ n :: skipn (S i) names)%list this)
    by (rewrite <- Hsplit; reflexivity).
  rewrite E. unfold SSH.connect.
  rewrite (connect_from_recoverable _ _ _ _ _ _ _ Hpre).
  cbn [SSH.connect_from]. rewrite Hs, Hm.
  destruct e; try (repeat split; reflexivity).
  exfalso. eapply He. reflexivity.
Qed.

(** C5. When every strategy of the list fails recoverably, [connect]
    rejects with one [AuthenticationFailed] whose message is the header
    followed by each strategy's failure text, in the order of the
    attempts, each behind the separator; every strategy was tried once
    and has one text in the message. *)
Theorem connect_aggregates_every_failure :
  forall names this ms this',
    all_recoverable names this = Some (ms, this') ->
    SSH.settled (connect names this)
      = Threw (SSH.AuthenticationFailed
                 (SSH.header
                  ++ String.concat ""
                       (map (fun m => SSH.separator ++ m) ms)))
    /\ SSH.tried (connect names this) = names
    /\ SSH.failures (connect names this) = ms
    /\ length ms = length names.
Proof.
  intros names this ms this' H.
  assert (E : connect names this = connect (names ++ [])%list this)
    by now rewrite app_nil_r.
  rewrite E. unfold SSH.connect.
  rewrite (connect_from_recoverable _ _ _ _ _ _ _ H).
  cbn [SSH.connect_from SSH.settled SSH.tried SSH.failures app].
  rewrite join_cons. repeat split.
  eapply all_recoverable_length; eassumption.
Qed.

End Negotiation.

Lemma connect_stops_at_first_success_witness :
  SSH.settled (SSH.connect 99000 Demo.key_only SSH.DEFAULT_STRATEGIES
                 Demo.offline)
    = Returned Demo.online
  /\ SSH.tried (SSH.connect 99000 Demo.key_only SSH.DEFAULT_STRATEGIES
                  Demo.offline)
     = [SSH.token; SSH.ssh_agent; SSH.ssh_key]
  /\ exists cfg conn,
       SSH.handshake Demo.key_only cfg = Returned conn
       /\ SSH.connection Demo.online = Some conn.
Proof.
  exact (connect_stops_at_first_success 99000 Demo.key_only
           SSH.DEFAULT_STRATEGIES 2 SSH.ssh_key Demo.offline
           _ Demo.offline Demo.online eq_refl eq_refl eq_refl).
Defined.

Lemma connect_halts_on_unexpected_error_object_witness :
  SSH.settled (SSH.connect 99000 Demo.no_such_host SSH.DEFAULT_STRATEGIES
                 Demo.offline)
    = Threw (SSH.GeneralError
               ("unable to find the SSH server. host: hub.example, port: 22."
                ++ " Original error message: "
                ++ "getaddrinfo ENOTFOUND hub.example"))
  /\ SSH.tried (SSH.connect 99000 Demo.no_such_host SSH.DEFAULT_STRATEGIES
                  Demo.offline)
     = [SSH.token; SSH.ssh_agent; SSH.ssh_key]
  /\ length (SSH.failures (SSH.connect 99000 Demo.no_such_host
                             SSH.DEFAULT_STRATEGIES Demo.offline)) = 2.
Proof.
  destruct (connect_halts_on_unexpected_error_object 99000 Demo.no_such_host
              SSH.DEFAULT_STRATEGIES 2 SSH.ssh_key Demo.offline
              _ Demo.offline Demo.offline _ eq_refl eq_refl eq_refl)
    as [(H1 & H2 & H3) _].
  - intros m; discriminate.
  - reflexivity.
  - rewrite H1, H2, H3. repeat split.
Defined.

(** C4, as stated, fails.  The host does not resolve: the caller gets a
    [GeneralError], not the error of the transport.  The user dismisses
    the prompt, which rejects with [undefined]: the caller gets a
    [TypeError], not [undefined]. *)
Lemma connect_does_not_pass_every_error_on :
  SSH.settled (SSH.connect 99000 Demo.no_such_host SSH.DEFAULT_STRATEGIES
                 Demo.offline)
    <> Threw (Spec.original_error Demo.unresolved)
  /\ fst (SSH.strategies 99000 Demo.prompt_dismissed SSH.user_password
            Demo.offline)
     = Threw (SSH.Foreign Js.Undefined)
  /\ SSH.settled (SSH.connect 99000 Demo.prompt_dismissed
                    [SSH.user_password] Demo.offline)
     <> Threw (SSH.Foreign Js.Undefined).
Proof.
  split; [| split].
  - intros H. vm_compute in H. discriminate H.
  - reflexivity.
  - intros H. vm_compute in H. discriminate H.
Qed.

Lemma connect_aggregates_every_failure_witness :
  exists ms,
    SSH.all_recoverable 99000 Demo.locked_out
      [SSH.token; SSH.ssh_agent; SSH.ssh_key] Demo.offline
      = Some (ms, Demo.offline)
    /\ SSH.settled (SSH.connect 99000 Demo.locked_out
                      [SSH.token; SSH.ssh_agent; SSH.ssh_key] Demo.offline)
       = Threw (SSH.AuthenticationFailed
                  (SSH.header
                   ++ String.concat ""
                        (map (fun m => SSH.separator ++ m) ms)))
    /\ length ms = 3.
Proof.
  eexists. split; [reflexivity |].
  destruct (connect_aggregates_every_failure 99000 Demo.locked_out
              [SSH.token; SSH.ssh_agent; SSH.ssh_key] Demo.offline
              _ Demo.offline eq_refl) as (H1 & _ & _ & H4).
  split; [exact H1 | exact H4].
Defined.

End NegotiationFacts.

(* ================================================================== *)
(** ** Facts about the execution stream *)

Module ChannelFacts.

Section Channel.

Variable unpackCommand : Js.value -> bool -> option Js.value.
Variable check : Js.value -> outcome SSH.exn Js.value.
Variable this : SSH.SSH.
Variables commandName payload : string.

Local Notation "'promiseExit'" := (SSH.promiseExit unpackCommand check this).
Local Notation "'handle'" :=
  (SSH.handle unpackCommand check this commandName payload).
Local Notation "'run'" :=
  (SSH.run unpackCommand check this commandName payload).
Local Notation "'outcome_of'" := (verdict unpackCommand check this).
Local Notation "'strip_echo'" := (SSH.strip_echo commandName payload).

Lemma strip_echo_promise st :
  SSH.promise (strip_echo st) = SSH.promise st.
Proof. unfold SSH.strip_echo. now destruct (commandName =? "_put"). Qed.

Lemma strip_echo_err st : SSH.err (strip_echo st) = SSH.err st.
Proof. unfold SSH.strip_echo. now destruct (commandName =? "_put"). Qed.

Lemma strip_echo_res st :
  SSH.res (strip_echo st)
  = if commandName =? "_put" then Js.replace_first payload (SSH.res st)
    else SSH.res st.
Proof. unfold SSH.strip_echo. now destruct (commandName =? "_put"). Qed.

Lemma settle_settled s s' st :
  SSH.promise st = Some s -> SSH.settle s' st = st.
Proof. unfold SSH.settle. now intros ->. Qed.

Lemma promiseExit_settled code st cell s :
  SSH.promise st = Some s ->
  SSH.promise (fst (promiseExit code st cell)) = Some s.
Proof.
  intros H. unfold SSH.promiseExit.
  destruct code as [c |]; [destruct (c =? 0)%Z |];
    try destruct (SSH.errorHandler _ _ _ _ _ _) as [e cell'];
    simpl; now rewrite (settle_settled _ _ _ H).
Qed.

Lemma promiseExit_pending code st cell :
  SSH.promise st = None ->
  SSH.promise (fst (promiseExit code st cell))
  = Some (outcome_of code (SSH.res st) (SSH.err st) cell).
Proof.
  intros H. unfold SSH.promiseExit, verdict, SSH.settle.
  destruct code as [c |]; [destruct (c =? 0)%Z |];
    try destruct (SSH.errorHandler _ _ _ _ _ _) as [e cell'];
    simpl; now rewrite H.
Qed.

Lemma handle_settled ev st cell s :
  SSH.promise st = Some s ->
  SSH.promise (fst (handle ev st cell)) = Some s.
Proof.
  intros H. destruct ev as [r | r | code | code signal |]; simpl; try exact H.
  - apply promiseExit_settled. now rewrite strip_echo_promise.
  - destruct (SSH.timers st) as [| code later]; [exact H |].
    now apply promiseExit_settled.
Qed.

(** A settled promise stays as it is, whatever the stream still
    delivers. *)
Lemma run_settled events :
  forall st cell s,
    SSH.promise st = Some s ->
    SSH.promise (fst (run events st cell)) = Some s.
Proof.
  induction events as [| ev events IH]; intros st cell s H; simpl.
  - exact H.
  - pose proof (handle_settled ev st cell s H) as H'.
    destruct (handle ev st cell) as [st' cell']. now apply IH.
Qed.

Lemma run_app events1 :
  forall events2 st cell,
    run (events1 ++ events2)%list st cell
    = run events2 (fst (run events1 st cell)) (snd (run events1 st cell)).
Proof.
  induction events1 as [| ev events1 IH]; intros events2 st cell; simpl.
  - reflexivity.
  - destruct (handle ev st cell) as [st' cell']. apply IH.
Qed.

(** Chunks only grow [res] and replace [err]. *)
Lemma run_chunks chunks :
  forall st cell,
    chunks_only chunks = true ->
    run chunks st cell
    = ({| SSH.res := SSH.res st ++ stdout_of chunks;
          SSH.err := last_stderr (SSH.err st) chunks;
          SSH.timers := SSH.timers st;
          SSH.promise := SSH.promise st |}, cell).
Proof.
  induction chunks as [| ev chunks IH]; intros st cell H; simpl in *.
  - rewrite NegotiationFacts.append_nil_r. now destruct st.
  - destruct ev as [r | r | | |]; try discriminate; simpl;
      rewrite (IH _ _ H); simpl.
    + now rewrite NegotiationFacts.append_assoc.
    + reflexivity.
Qed.

(** While the promise is pending nothing has read the two variables:
    [res] is the stdout delivered so far, [err] the last stderr chunk,
    and the version cell is untouched. *)
Lemma run_pending events :
  forall st cell,
    SSH.promise (fst (run events st cell)) = None ->
    SSH.promise st = None
    /\ SSH.res (fst (run events st cell)) = SSH.res st ++ stdout_of events
    /\ SSH.err (fst (run events st cell)) = last_stderr (SSH.err st) events
    /\ snd (run events st cell) = cell.
Proof.
  induction events as [| ev events IH]; intros st cell H; simpl in *.
  - rewrite NegotiationFacts.append_nil_r. auto.
  - assert (P : SSH.promise st = None).
    { destruct (SSH.promise st) as [s |] eqn:E; [| reflexivity].
      pose proof (handle_settled ev st cell s E) as H1.
      destruct (handle ev st cell) as [st' cell'].
      rewrite (run_settled events st' cell' s H1) in H. discriminate. }
    split; [exact P |].
    destruct ev as [r | r | code | code signal |]; simpl in *.
    + destruct (IH _ _ H) as (_ & H2 & H3 & H4). simpl in *.
      now rewrite H2, H3, H4, NegotiationFacts.append_assoc.
    + destruct (IH _ _ H) as (_ & H2 & H3 & H4). simpl in *. auto.
    + destruct (IH _ _ H) as (_ & H2 & H3 & H4). simpl in *. auto.
    + exfalso.
      pose proof (promiseExit_pending code (strip_echo st) cell) as H1.
      rewrite strip_echo_promise in H1. specialize (H1 P).
      destruct (promiseExit code (strip_echo st) cell) as [st' cell'].
      simpl in H1.
      rewrite (run_settled events st' cell' _ H1) in H. discriminate.
    + destruct (SSH.timers st) as [| code later] eqn:T.
      * destruct (IH _ _ H) as (_ & H2 & H3 & H4). auto.
      * exfalso.
        pose proof (promiseExit_pending code (SSH.set_timers later st) cell P)
          as H1.
        destruct (promiseExit code (SSH.set_timers later st) cell)
          as [st' cell'].
        simpl in H1.
        rewrite (run_settled events st' cell' _ H1) in H. discriminate.
Qed.

Lemma close_settles st cell code signal later :
  SSH.promise st = None ->
  SSH.promise (fst (run (SSH.Close code signal :: later) st cell))
  = Some (outcome_of code (SSH.res (strip_echo st)) (SSH.err st) cell).
Proof.
  intros P. simpl.
  pose proof (promiseExit_pending code (strip_echo st) cell) as H.
  rewrite strip_echo_promise, strip_echo_err in H. specialize (H P).
  destruct (promiseExit code (strip_echo st) cell) as [st' cell'].
  now apply run_settled.
Qed.

Lemma expiry_settles st cell code others later :
  SSH.promise st = None ->
  SSH.timers st = code :: others ->
  SSH.promise (fst (run (SSH.Expire :: later) st cell))
  = Some (outcome_of code (SSH.res st) (SSH.err st) cell).
Proof.
  intros P T. simpl. rewrite T.
  pose proof (promiseExit_pending code (SSH.set_timers others st) cell P) as H.
  destruct (promiseExit code (SSH.set_timers others st) cell) as [st' cell'].
  now apply run_settled.
Qed.

(** C2. The promise of [exec] settles once: a settled promise keeps its
    settlement through every later event; a ['close'] that finds the
    promise pending settles it at once from the two variables as they
    are then, whatever timers are queued and whatever follows, so that a
    later expiry changes nothing; and an ['exit'] followed by chunks only
    and then by the expiry of its timer settles it from the variables as
    they are at the expiry. *)
Theorem exec_settles_exactly_once :
  (forall events st cell s,
      SSH.promise st = Some s ->
      SSH.promise (fst (run events st cell)) = Some s)
  /\ (forall st cell code signal later,
        SSH.promise st = None ->
        SSH.promise (fst (run (SSH.Close code signal :: later) st cell))
        = Some (outcome_of code (SSH.res (strip_echo st)) (SSH.err st) cell))
  /\ (forall st cell code chunks later,
        SSH.promise st = None ->
        SSH.timers st = [] ->
        chunks_only chunks = true ->
        SSH.promise
          (fst (run (SSH.Exit code :: chunks ++ SSH.Expire :: later)%list
                  st cell))
        = Some (outcome_of code (SSH.res st ++ stdout_of chunks)
                  (last_stderr (SSH.err st) chunks) cell)).
Proof.
  split; [| split].
  - intros events st cell s H. now apply run_settled.
  - intros st cell code signal later P. now apply close_settles.
  - intros st cell code chunks later P T C.
    cbn [SSH.run SSH.handle]. rewrite run_app, (run_chunks _ _ _ C).
    cbn [fst snd]. erewrite expiry_settles; simpl; try reflexivity.
    + exact P.
    + rewrite T. reflexivity.
Qed.

(** C7, as amended.  A ['close'] with exit code 0 (or none) that finds
    the promise pending resolves it with the stdout delivered so far,
    from which, for ['_put'] only, the first occurrence of the payload
    text has been removed, and from which the first newline character,
    wherever it stands, has then been removed.  For the other verbs the
    expiry of an exit timer with such a code resolves it with the stdout
    delivered so far without its first newline character. *)
Theorem exec_resolves_without_first_newline :
  (forall before code signal later cell,
      SSH.promise (fst (run before SSH.opened cell)) = None ->
      code = None \/ code = Some 0%Z ->
      SSH.promise
        (fst (run (before ++ SSH.Close code signal :: later)%list
                SSH.opened cell))
      = Some (SSH.Resolved
                (SSH.clean
                   (if commandName =? "_put"
                    then Js.replace_first payload (stdout_of before)
                    else stdout_of before))))
  /\ (forall before code others later cell,
        SSH.promise (fst (run before SSH.opened cell)) = None ->
        SSH.timers (fst (run before SSH.opened cell)) = code :: others ->
        code = None \/ code = Some 0%Z ->
        (commandName =? "_put") = false ->
        SSH.promise
          (fst (run (before ++ SSH.Expire :: later)%list SSH.opened cell))
        = Some (SSH.Resolved (SSH.clean (stdout_of before)))).
Proof.
  split.
  - intros before code signal later cell P Hcode.
    destruct (run_pending before SSH.opened cell P) as (_ & R & _ & _).
    rewrite run_app, (close_settles _ _ _ _ _ P), strip_echo_res, R.
    destruct Hcode as [-> | ->]; reflexivity.
  - intros before code others later cell P T Hcode _.
    destruct (run_pending before SSH.opened cell P) as (_ & R & _ & _).
    rewrite run_app, (expiry_settles _ _ _ _ _ P T), R.
    destruct Hcode as [-> | ->]; reflexivity.
Qed.

(** C8, at an input where the code leaves the claim.  Two stderr chunks
    and then a ['close'] with exit code 1: the text handed to
    [errorHandler] is the second chunk, not the two chunks in a row. *)
Theorem exec_hands_over_last_stderr_chunk :
  forall signal cell,
    SSH.promise
      (fst (run [SSH.StderrData "ab"; SSH.StderrData "cd";
                 SSH.Close (Some 1%Z) signal] SSH.opened cell))
    = Some (SSH.Rejected
              (fst (SSH.errorHandler unpackCommand check this 1
                      (Js.Str "cd") cell)))
    /\ Js.Str "cd" <> Js.Str (Spec.stderr_text ["ab"; "cd"]).
Proof.
  intros signal cell. split; [| discriminate].
  change (run [SSH.StderrData "ab"; SSH.StderrData "cd";
               SSH.Close (Some 1%Z) signal] SSH.opened cell)
    with (run [SSH.Close (Some 1%Z) signal]
            (SSH.set_err (Js.Str "cd")
               (SSH.set_err (Js.Str "ab") SSH.opened)) cell).
  rewrite close_settles by reflexivity. reflexivity.
Qed.

End Channel.

(** The first newline goes, nothing else. *)
Lemma clean_first_newline (c : ascii) (s : string) :
  SSH.clean (String c s)
  = if Ascii.eqb c (ascii_of_nat 10) then s else String c (SSH.clean s).
Proof.
  unfold SSH.clean, Js.newline.
  cbn [Js.replace_first String.prefix String.length Js.drop].
  destruct (ascii_dec (ascii_of_nat 10) c) as [E | N].
  - rewrite <- E, Ascii.eqb_refl. now destruct s.
  - destruct (Ascii.eqb_spec c (ascii_of_nat 10)) as [E | _];
      [now symmetry in E | reflexivity].
Qed.

(** [replace] with a string pattern removes an echo at the start and
    leaves a text without the pattern alone. *)
Lemma replace_first_leading (pat s : string) :
  Js.replace_first pat (pat ++ s) = s.
Proof.
  assert (U : forall t,
             Js.replace_first pat t
             = if String.prefix pat t then Js.drop (String.length pat) t
               else match t with
                    | EmptyString => EmptyString
                    | String c t' => String c (Js.replace_first pat t')
                    end) by (intros t; destruct t; reflexivity).
  assert (P : String.prefix pat (pat ++ s) = true).
  { induction pat as [| c pat IH]; simpl; [now destruct s |].
    destruct (ascii_dec c c) as [_ | N]; [apply IH | now contradiction N].
    intros t; destruct t; reflexivity. }
  rewrite U, P. clear U P.
  induction pat as [| c pat IH]; simpl; [reflexivity | exact IH].
Qed.

Lemma replace_first_absent (pat s : string) :
  Js.includes s pat = false -> Js.replace_first pat s = s.
Proof.
  induction s as [| c s IH];
    cbn [Js.includes Js.replace_first].
  - destruct (String.prefix pat ""); [intros H; discriminate H | reflexivity].
  - destruct (String.prefix pat (String c s));
      [intros H; discriminate H | intros H; now rewrite IH].
Qed.

Lemma exec_settles_exactly_once_witness :
  let st := {| SSH.res := "ok"; SSH.err := Js.Undefined;
               SSH.timers := [Some 0%Z]; SSH.promise := None |} in
  SSH.promise
    (fst (SSH.run Demo.unpackCommand Demo.compatible Demo.online "_list" ""
            [SSH.Close (Some 0%Z) Js.Undefined; SSH.Expire] st Once.fresh))
  = Some (SSH.Resolved "ok")
  /\ SSH.promise
       (fst (SSH.run Demo.unpackCommand Demo.compatible Demo.online "_list"
               "" [SSH.Exit (Some 0%Z); SSH.Data "ok"; SSH.Expire]
               SSH.opened Once.fresh))
     = Some (SSH.Resolved "ok")
  /\ SSH.promise
       (fst (SSH.run Demo.unpackCommand Demo.compatible Demo.online "_list"
               "" [SSH.Expire; SSH.Close (Some 1%Z) Js.Undefined]
               (SSH.settle (SSH.Resolved "ok") st) Once.fresh))
     = Some (SSH.Resolved "ok").
Proof.
  intros st.
  destruct (exec_settles_exactly_once Demo.unpackCommand Demo.compatible
              Demo.online "_list" "") as (Once_ & Close_ & Exit_).
  split; [| split].
  - exact (Close_ st Once.fresh (Some 0%Z) Js.Undefined [SSH.Expire] eq_refl).
  - exact (Exit_ SSH.opened Once.fresh (Some 0%Z) [SSH.Data "ok"] []
             eq_refl eq_refl eq_refl).
  - exact (Once_ [SSH.Expire; SSH.Close (Some 1%Z) Js.Undefined]
             (SSH.settle (SSH.Resolved "ok") st) Once.fresh
             (SSH.Resolved "ok") eq_refl).
Defined.

Lemma exec_resolves_without_first_newline_witness :
  SSH.promise
    (fst (SSH.run Demo.unpackCommand Demo.compatible Demo.online "_put" "x"
            ([SSH.Data ("xax" ++ Js.newline ++ "b" ++ Js.newline)]
             ++ [SSH.Close (Some 0%Z) Js.Undefined])%list
            SSH.opened Once.fresh))
  = Some (SSH.Resolved ("axb" ++ Js.newline))
  /\ SSH.promise
       (fst (SSH.run Demo.unpackCommand Demo.compatible Demo.online "_list"
               "x"
               ([SSH.Data ("xax" ++ Js.newline); SSH.Exit None]
                ++ [SSH.Expire])%list
               SSH.opened Once.fresh))
     = Some (SSH.Resolved "xax").
Proof.
  split.
  - exact (proj1 (exec_resolves_without_first_newline Demo.unpackCommand
                    Demo.compatible Demo.online "_put" "x")
             [SSH.Data ("xax" ++ Js.newline ++ "b" ++ Js.newline)]
             (Some 0%Z) Js.Undefined [] Once.fresh eq_refl
             (or_intror eq_refl)).
  - exact (proj2 (exec_resolves_without_first_newline Demo.unpackCommand
                    Demo.compatible Demo.online "_list" "x")
             [SSH.Data ("xax" ++ Js.newline); SSH.Exit None]
             None [] [] Once.fresh eq_refl eq_refl
             (or_introl eq_refl) eq_refl).
Defined.

(** C7, as stated, fails.  With stdout ["a\nb\n"] and exit code 0 the
    code resolves with ["ab\n"], the claim with ["a\nb"]; and for
    ['_put'] with payload ["x"] and stdout ["xax"] the code resolves with
    ["ax"], the claim with ["a"]. *)
Lemma exec_does_not_trim_trailing_newlines :
  SSH.promise
    (fst (SSH.exec Demo.unpackCommand Demo.compatible Demo.online "_list" ""
            None
            [SSH.Data ("a" ++ Js.newline ++ "b" ++ Js.newline);
             SSH.Close (Some 0%Z) Js.Undefined] Once.fresh))
  <> Some (SSH.Resolved
             (Spec.resolved_value "_list" ""
                ("a" ++ Js.newline ++ "b" ++ Js.newline)))
  /\ SSH.promise
       (fst (SSH.exec Demo.unpackCommand Demo.compatible Demo.online "_put"
               "x" None
               [SSH.Data "xax"; SSH.Close (Some 0%Z) Js.Undefined]
               Once.fresh))
     <> Some (SSH.Resolved (Spec.resolved_value "_put" "x" "xax")).
Proof.
  split; intros H; vm_compute in H; discriminate H.
Qed.

End ChannelFacts.

(* ================================================================== *)
(** ** Facts about the verbs and the version check *)

Module RpcFacts.

Section Rpc.

Variable unpackCommand : Js.value -> bool -> option Js.value.
Variable check : Js.value -> outcome SSH.exn Js.value.
Variable JSON_parse : string -> option Js.value.
Variable manyFromString : Js.value -> outcome SSH.exn Js.value.

Local Notation "'checkVersionCompatibility'" :=
  (SSH.checkVersionCompatibility check).
Local Notation "'check_all'" := (SSH.check_all check).
Local Notation "'pushMany_then'" := (SSH.pushMany_then unpackCommand check).
Local Notation "'pushMany_each'" := (SSH.pushMany_each unpackCommand check).
Local Notation "'fetch'" := (SSH.fetch check JSON_parse manyFromString).

(** A used cell answers every call from what it holds. *)
Lemma check_after_first version cell :
  Once.called cell = true ->
  checkVersionCompatibility version cell = (Returned (Once.result cell), cell).
Proof.
  intros H. unfold SSH.checkVersionCompatibility, Once.call. now rewrite H.
Qed.

(** The first call uses the cell up, whether the function returns or
    throws. *)
Lemma check_first version cell :
  Once.called cell = false ->
  Once.called (snd (checkVersionCompatibility version cell)) = true
  /\ Once.ran (snd (checkVersionCompatibility version cell))
     = (Once.ran cell ++ [version])%list.
Proof.
  intros H. unfold SSH.checkVersionCompatibility, Once.call. rewrite H.
  destruct (check version); simpl; auto.
Qed.

Lemma check_all_used versions :
  forall cell, Once.called cell = true -> check_all versions cell = cell.
Proof.
  induction versions as [| v versions IH]; intros cell H; simpl.
  - reflexivity.
  - rewrite (check_after_first v cell H). simpl. now apply IH.
Qed.

(** Of a run of calls the wrapped function sees the first one only. *)
Lemma check_all_first_only versions :
  Once.ran (check_all versions Once.fresh) = firstn 1 versions.
Proof.
  destruct versions as [| v versions]; simpl; [reflexivity |].
  destruct (check_first v Once.fresh eq_refl) as [H1 H2].
  rewrite check_all_used by exact H1. exact H2.
Qed.

(** The callback of [pushMany] calls the check on the version the
    envelope carries. *)
Lemma pushMany_then_checks data version cell :
  carries_version unpackCommand data version ->
  snd (pushMany_then data cell) = snd (checkVersionCompatibility version cell).
Proof.
  intros (unpacked & headers & Hu & Hh & Hv).
  unfold SSH.pushMany_then, SSH._unpack, SSH.destructure, SSH.field, bind, ret.
  rewrite Hu; simpl. rewrite Hh.
  assert (Hp : exists payload, Js.get unpacked "payload" = Some payload)
    by (destruct unpacked; simpl in *; try discriminate; eauto).
  destruct Hp as [payload Hp]. rewrite Hp; simpl. rewrite Hv.
  destruct (checkVersionCompatibility version cell) as [[r | e] cell'];
    simpl; [| reflexivity].
  destruct (Js.get payload "ids"); reflexivity.
Qed.

Lemma pushMany_each_is_check_all datas versions :
  Forall2 (carries_version unpackCommand) datas versions ->
  forall cell, pushMany_each datas cell = check_all versions cell.
Proof.
  induction 1 as [| data version datas versions H _ IH]; intros cell; simpl.
  - reflexivity.
  - rewrite (pushMany_then_checks _ _ _ H). apply IH.
Qed.

(** C6, as amended.  The version check runs once for the process, not
    once per version: of any sequence of decoded envelopes, whatever
    versions they carry, the check function runs on the version of the
    first one and on no other. *)
Theorem version_check_runs_on_first_decode_only :
  forall datas versions,
    Forall2 (carries_version unpackCommand) datas versions ->
    Once.ran (pushMany_each datas Once.fresh) = firstn 1 versions.
Proof.
  intros datas versions H.
  rewrite (pushMany_each_is_check_all _ _ H). apply check_all_first_only.
Qed.

(** C9. [fetch] decodes the response with [JSON.parse], not with the
    envelope codec: when [JSON.parse] throws on the text, [fetch] throws
    [SSHInvalidResponse] holding that text, and the version cell is left
    alone; when it returns an object with [headers] and [payload], the
    check runs on [headers.version] and the payload goes to
    [ComponentObjects.manyFromString]. *)
Theorem fetch_rejects_invalid_json_with_raw_text :
  forall str cell,
    (JSON_parse str = None ->
     fetch (SSH.Resolved str) cell
     = (Threw (SSH.SSHInvalidResponse (Js.Str str)), cell))
    /\ (forall results headers payload version,
          JSON_parse str = Some results ->
          Js.get results "headers" = Some headers ->
          Js.get results "payload" = Some payload ->
          Js.get headers "version" = Some version ->
          lets_through check version cell ->
          fetch (SSH.Resolved str) cell
          = (manyFromString payload,
             snd (checkVersionCompatibility version cell))).
Proof.
  intros str cell. split.
  - intros H. unfold SSH.fetch, SSH.and_then, SSH.fetch_then,
      SSH.parseResponse, bind, throw. now rewrite H.
  - intros results headers payload version Hr Hh Hp Hv Hc.
    destruct (TranslatorFacts.once_call_passes check version cell Hc)
      as (r & cell' & Hcall).
    unfold SSH.fetch, SSH.and_then, SSH.fetch_then, SSH.parseResponse,
      SSH.destructure, SSH.field, SSH.checkVersionCompatibility, bind, ret.
    rewrite Hr; simpl. rewrite Hh, Hp; simpl. rewrite Hv, Hcall.
    reflexivity.
Qed.

End Rpc.

Lemma version_check_runs_on_first_decode_only_witness :
  Once.ran (SSH.pushMany_each Demo.unpackCommand Demo.compatible
              ["E3"; "E2"; "E3"] Once.fresh)
  = [Js.Str "1"].
Proof.
  apply (version_check_runs_on_first_decode_only Demo.unpackCommand
           Demo.compatible ["E3"; "E2"; "E3"]
           [Js.Str "1"; Js.Str "2"; Js.Str "1"]).
  repeat constructor; unfold carries_version;
    do 2 eexists; repeat split; reflexivity.
Defined.

Lemma fetch_rejects_invalid_json_with_raw_text_witness :
  SSH.fetch Demo.compatible Demo.JSON_parse Demo.manyFromString
    (SSH.Resolved "not json") Once.fresh
  = (Threw (SSH.SSHInvalidResponse (Js.Str "not json")), Once.fresh).
Proof.
  apply (fetch_rejects_invalid_json_with_raw_text Demo.compatible
           Demo.JSON_parse Demo.manyFromString "not json" Once.fresh).
  reflexivity.
Defined.

(** C6, as stated, fails.  Two envelopes, of versions ["1"] and ["2"], are
    decoded one after the other; the claim has the check run on both, the
    code runs it on ["1"] only. *)
Lemma version_check_is_not_keyed :
  Forall2 (carries_version Demo.unpackCommand) ["E1"; "E2"]
    [Js.Str "1"; Js.Str "2"]
  /\ Once.ran (SSH.pushMany_each Demo.unpackCommand Demo.compatible
                 ["E1"; "E2"] Once.fresh)
     <> map Js.Str (Spec.checked_versions ["1"; "2"]).
Proof.
  split.
  - repeat constructor; unfold carries_version;
      do 2 eexists; repeat split; reflexivity.
  - intros H. vm_compute in H. discriminate H.
Qed.

End RpcFacts.

(* ================================================================== *)
(** ** More facts about the negotiation *)

Module NegotiationMore.

Section Negotiation.

Variable DEFAULT_SSH_READY_TIMEOUT : Z.
Variable env : SSH.Env.

Local Notation "'strategies'" := (SSH.strategies DEFAULT_SSH_READY_TIMEOUT env).
Local Notation "'connect_from'" :=
  (SSH.connect_from DEFAULT_SSH_READY_TIMEOUT env).
Local Notation "'connect'" := (SSH.connect DEFAULT_SSH_READY_TIMEOUT env).
Local Notation "'_connectWithConfig'" := (SSH._connectWithConfig env).

Ltac unfold_strategies :=
  unfold SSH._tokenAuthentication, SSH._anonymousAuthentication,
    SSH._sshAgentAuthentication, SSH._sshKeyAuthentication,
    SSH._userPassAuthentication, SSH._composeTokenAuthObject,
    SSH._composeAnonymousAuthObject, SSH._composeUserPassObject,
    bind, throw in *.

(** What [_connectWithConfig] can end in. *)
Lemma connectWithConfig_cases cfg ty msg this :
  (exists conn,
      SSH.handshake env cfg = Returned conn
      /\ _connectWithConfig cfg ty msg this
         = (Returned tt, SSH.set_connection conn this))
  \/ (exists err e,
        SSH.handshake env cfg = Threw err
        /\ _connectWithConfig cfg ty msg this = (Threw e, this)
        /\ ((exists m, e = SSH.AuthenticationStrategyFailed m)
            \/ (exists text,
                  e = SSH.GeneralError text
                  /\ Js.is_str (SSH.err_code err) "ENOTFOUND" = true
                  /\ SSH.err_message err <> SSH.AUTH_FAILED_MESSAGE))).
Proof.
  unfold SSH._connectWithConfig.
  destruct (SSH.handshake env cfg) as [conn | err]; [left; eauto |].
  right. exists err.
  destruct (String.eqb_spec (SSH.err_message err) SSH.AUTH_FAILED_MESSAGE)
    as [E | N]; [eauto 6 |].
  destruct (Js.is_str (SSH.err_code err) "ENOTFOUND") eqn:C; [eauto 10 |].
  destruct (SSH.err_message err =? SSH.PASSPHRASE_POSSIBLY_MISSING_MESSAGE);
    eauto 6.
Qed.

(** X5. A handshake that ends in an error never leaves a connection on
    the instance, and the error that leaves [_connectWithConfig] is, in
    the order the source tests: the strategy's own hint when the message
    is the generic authentication one, whatever the code; a
    [GeneralError] naming host, port and message when the code is
    [ENOTFOUND]; the advice to use ssh-agent, with a note for macOS
    Mojave, when the message is the one of an unparsable private key;
    and otherwise the hint followed by the message of the error.  All but
    the [GeneralError] are recoverable. *)
Theorem handshake_error_is_classified :
  forall cfg ty msg this err,
    SSH.handshake env cfg = Threw err ->
    (SSH.err_message err = SSH.AUTH_FAILED_MESSAGE ->
     _connectWithConfig cfg ty msg this
     = (Threw (SSH.AuthenticationStrategyFailed msg), this))
    /\ (SSH.err_message err <> SSH.AUTH_FAILED_MESSAGE ->
        Js.is_str (SSH.err_code err) "ENOTFOUND" = true ->
        _connectWithConfig cfg ty msg this
        = (Threw (SSH.GeneralError
                    ("unable to find the SSH server. host: "
                     ++ SSH.err_host err ++ ", port: " ++ SSH.err_port err
                     ++ ". Original error message: " ++ SSH.err_message err)),
           this))
    /\ (SSH.err_message err <> SSH.AUTH_FAILED_MESSAGE ->
        Js.is_str (SSH.err_code err) "ENOTFOUND" = false ->
        SSH.err_message err = SSH.PASSPHRASE_POSSIBLY_MISSING_MESSAGE ->
        _connectWithConfig cfg ty msg this
        = (Threw (SSH.AuthenticationStrategyFailed
                    (if (SSH.process_platform env =? "darwin")
                        && (SSH.os_release env =? "18.2.0")
                     then "error connecting with private ssh key. in case passphrase is used, use ssh-agent."
                          ++ " for macOS Mojave users, use `-m PEM` for `ssh-keygen` command to generate a valid SSH key"
                     else "error connecting with private ssh key. in case passphrase is used, use ssh-agent.")),
           this))
    /\ (SSH.err_message err <> SSH.AUTH_FAILED_MESSAGE ->
        Js.is_str (SSH.err_code err) "ENOTFOUND" = false ->
        SSH.err_message err <> SSH.PASSPHRASE_POSSIBLY_MISSING_MESSAGE ->
        _connectWithConfig cfg ty msg this
        = (Threw (SSH.AuthenticationStrategyFailed
                    (msg ++ " due to an error " ++ Js.dquote
                     ++ SSH.err_message err ++ Js.dquote)), this)).
Proof.
  intros cfg ty msg this err H. unfold SSH._connectWithConfig. rewrite H.
  repeat split.
  - intros E. apply String.eqb_eq in E. now rewrite E.
  - intros N C. apply String.eqb_neq in N. now rewrite N, C.
  - intros N C P. apply String.eqb_neq in N. apply String.eqb_eq in P.
    rewrite N, C, P.
    now destruct ((SSH.process_platform env =? "darwin")
                  && (SSH.os_release env =? "18.2.0")).
  - intros N C P. apply String.eqb_neq in N. apply String.eqb_neq in P.
    now rewrite N, C, P.
Qed.

Lemma strategy_cases n this :
  (exists cfg ty msg,
      strategies n this = _connectWithConfig cfg ty msg this
      \/ exists u, strategies n this
                   = _connectWithConfig cfg ty msg (SSH.set_sshUsername u this))
  \/ (exists m, strategies n this
                = (Threw (SSH.AuthenticationStrategyFailed m), this))
  \/ (exists e, n = SSH.ssh_key /\ SSH.keyGetter env = Threw e
                /\ strategies n this = (Threw e, this))
  \/ (exists e, n = SSH.user_password /\ SSH.promptUserpass env = Threw e
                /\ strategies n this = (Threw e, this)).
Proof.
  destruct n; simpl; unfold_strategies.
  - destruct (Js.truthy _); [left; eauto 7 | right; left; eauto].
  - destruct (negb _); [right; left; eauto | left; eauto 7].
  - destruct (SSH.keyGetter env) as [k | e] eqn:K.
    + destruct (negb _); [right; left; eauto | left; eauto 7].
    + right; right; left. eauto.
  - destruct (SSH.promptUserpass env) as [[u p] | e] eqn:K.
    + left; eauto 7.
    + right; right; right. eauto.
  - left; eauto 7.
Qed.

(** X6. Only three things stop the negotiation: a host that does not
    resolve, an exception of the key getter in the ssh-key strategy, and
    a rejection of the prompt in the user-password strategy. *)
Theorem only_three_ways_to_abort :
  forall n this e this',
    strategies n this = (Threw e, this') ->
    (forall m, e <> SSH.AuthenticationStrategyFailed m) ->
    (exists text cfg err,
        e = SSH.GeneralError text
        /\ SSH.handshake env cfg = Threw err
        /\ Js.is_str (SSH.err_code err) "ENOTFOUND" = true)
    \/ (n = SSH.ssh_key /\ SSH.keyGetter env = Threw e)
    \/ (n = SSH.user_password /\ SSH.promptUserpass env = Threw e).
Proof.
  intros n this e this' H He.
  assert (K : forall cfg ty msg t,
             _connectWithConfig cfg ty msg t = (Threw e, this') ->
             exists text cfg err,
               e = SSH.GeneralError text
               /\ SSH.handshake env cfg = Threw err
               /\ Js.is_str (SSH.err_code err) "ENOTFOUND" = true).
  { intros cfg ty msg t Hc.
    destruct (connectWithConfig_cases cfg ty msg t)
      as [(conn & _ & Hr) | (err & e' & Hh & Hr & Hk)];
      rewrite Hr in Hc; [discriminate |].
    inversion Hc; subst.
    destruct Hk as [[m ->] | (text & -> & Hcode & _)];
      [now contradiction (He m) | eauto 6]. }
  destruct (strategy_cases n this)
    as [(cfg & ty & msg & [E | [u E]]) | [[m E] | [(e' & -> & Hk & E)
                                                  | (e' & -> & Hk & E)]]];
    rewrite E in H.
  - left. eapply K; eassumption.
  - left. eapply K; eassumption.
  - inversion H; subst. now contradiction (He m).
  - inversion H; subst. auto.
  - inversion H; subst. auto.
Qed.

(** X1. [connect] never lets an [AuthenticationStrategyFailed] out: the
    class stays inside the file. *)
Theorem connect_never_throws_strategy_failure :
  forall names this m,
    SSH.settled (connect names this)
    <> Threw (SSH.AuthenticationStrategyFailed m).
Proof.
  intros names this m. unfold SSH.connect.
  generalize (@nil string) (@nil SSH.SSHConnectionStrategyName).
  revert this.
  induction names as [| n names IH]; intros this fs lg; simpl.
  - discriminate.
  - destruct (strategies n this) as [[[] | e] this1]; simpl;
      [discriminate |].
    destruct (SSH.has_message e); [| discriminate].
    destruct e; simpl; try discriminate. apply IH.
Qed.

Lemma connect_from_resolved names :
  forall fs lg this t,
    SSH.settled (connect_from names fs lg this) = Returned t ->
    t = SSH.self (connect_from names fs lg this)
    /\ exists cfg conn,
         SSH.handshake env cfg = Returned conn
         /\ SSH.connection t = Some conn.
Proof.
  induction names as [| n names IH]; intros fs lg this t; simpl.
  - discriminate.
  - destruct (strategies n this) as [[[] | e] this1] eqn:S; simpl.
    + intros H. inversion H; subst. split; [reflexivity |].
      eapply NegotiationFacts.strategy_returned_connected. exact S.
    + destruct (SSH.has_message e); [| discriminate].
      destruct e; simpl; try discriminate. apply IH.
Qed.

(** X2. When [connect] resolves, it resolves with the instance itself,
    and that instance holds the connection of a handshake that
    succeeded. *)
Theorem connect_resolves_with_a_live_connection :
  forall names this t,
    SSH.settled (connect names this) = Returned t ->
    t = SSH.self (connect names this)
    /\ exists cfg conn,
         SSH.handshake env cfg = Returned conn
         /\ SSH.connection t = Some conn.
Proof.
  intros names this t. apply connect_from_resolved.
Qed.

Lemma connect_from_prefix names :
  forall fs lg this,
    exists k,
      SSH.tried (connect_from names fs lg this) = (lg ++ firstn k names)%list
      /\ k <= length names
      /\ length fs + k <= S (length (SSH.failures (connect_from names fs lg this)))
      /\ length (SSH.failures (connect_from names fs lg this))
         <= length fs + k.
Proof.
  induction names as [| n names IH]; intros fs lg this; simpl.
  - exists 0. simpl. rewrite app_nil_r. repeat split; lia.
  - destruct (strategies n this) as [[[] | e] this1]; simpl.
    + exists 1. simpl. repeat split; lia.
    + destruct (SSH.has_message e) eqn:M;
        [| exists 1; simpl; repeat split; lia].
      assert (D : (exists m, e = SSH.AuthenticationStrategyFailed m)
                  \/ forall m, e <> SSH.AuthenticationStrategyFailed m)
        by (destruct e; eauto; right; discriminate).
      destruct D as [[m ->] | D].
      * destruct (IH (fs ++ [m])%list (lg ++ [n])%list this1)
          as (k & H1 & H2 & H3 & H4).
        exists (S k). rewrite H1, <- app_assoc. simpl.
        rewrite length_app in H3, H4. simpl in H3, H4.
        repeat split; lia.
      * exists 1.
        destruct e; try (simpl; repeat split; lia).
        now contradiction (D message).
Qed.

(** X3. The strategies [connect] tries are a prefix of the list it is
    given, in the same order, and each of them except possibly the last
    has left one failure text. *)
Theorem connect_tries_a_prefix_in_order :
  forall names this,
    exists k,
      SSH.tried (connect names this) = firstn k names
      /\ k <= length names
      /\ length (SSH.failures (connect names this)) <= k
      /\ k <= S (length (SSH.failures (connect names this))).
Proof.
  intros names this. unfold SSH.connect.
  destruct (connect_from_prefix names [] [] this) as (k & H1 & H2 & H3 & H4).
  exists k. simpl in *. repeat split; try assumption; lia.
Qed.

End Negotiation.

Lemma handshake_error_is_classified_witness :
  SSH._connectWithConfig Demo.no_such_host Demo.config "ssh-key" "hint"
    Demo.offline
  = (Threw (SSH.GeneralError
              ("unable to find the SSH server. host: hub.example, port: 22."
               ++ " Original error message: "
               ++ "getaddrinfo ENOTFOUND hub.example")), Demo.offline)
  /\ SSH._connectWithConfig Demo.locked_out Demo.config "ssh-key" "hint"
       Demo.offline
     = (Threw (SSH.AuthenticationStrategyFailed "hint"), Demo.offline).
Proof.
  split.
  - exact (proj1 (proj2 (handshake_error_is_classified Demo.no_such_host
                           Demo.config "ssh-key" "hint" Demo.offline
                           Demo.unresolved eq_refl))
             ltac:(discriminate) eq_refl).
  - exact (proj1 (handshake_error_is_classified Demo.locked_out
                    Demo.config "ssh-key" "hint" Demo.offline
                    Demo.refused eq_refl) eq_refl).
Defined.

Lemma only_three_ways_to_abort_witness :
  exists text cfg err,
    SSH.handshake Demo.no_such_host cfg = Threw err
    /\ Js.is_str (SSH.err_code err) "ENOTFOUND" = true
    /\ fst (SSH.strategies 99000 Demo.no_such_host SSH.ssh_key Demo.offline)
       = Threw (SSH.GeneralError text).
Proof.
  destruct (only_three_ways_to_abort 99000 Demo.no_such_host SSH.ssh_key
              Demo.offline _ Demo.offline eq_refl)
    as [(text & cfg & err & H1 & H2 & H3) | [[_ H] | [H _]]].
  - intros m. discriminate.
  - exists text, cfg, err. repeat split; try assumption.
    simpl. now rewrite <- H1.
  - discriminate H.
  - discriminate H.
Defined.

Lemma connect_resolves_with_a_live_connection_witness :
  exists cfg conn,
    SSH.handshake Demo.key_only cfg = Returned conn
    /\ SSH.connection Demo.online = Some conn.
Proof.
  apply (connect_resolves_with_a_live_connection 99000 Demo.key_only
           SSH.DEFAULT_STRATEGIES Demo.offline Demo.online eq_refl).
Defined.

End NegotiationMore.

(* ================================================================== *)
(** ** What the negotiation leaves on the instance *)

Module IdentityFacts.

Section Identity.

Variable DEFAULT_SSH_READY_TIMEOUT : Z.
Variable env : SSH.Env.

Local Notation "'strategies'" := (SSH.strategies DEFAULT_SSH_READY_TIMEOUT env).
Local Notation "'connect_from'" :=
  (SSH.connect_from DEFAULT_SSH_READY_TIMEOUT env).
Local Notation "'connect'" := (SSH.connect DEFAULT_SSH_READY_TIMEOUT env).
Local Notation "'_connectWithConfig'" := (SSH._connectWithConfig env).
Local Notation "'configured_token'" :=
  (Js.or (SSH.globalFlags_token env) (SSH.config_user_token env)).

Ltac unfold_strategies :=
  unfold SSH._tokenAuthentication, SSH._anonymousAuthentication,
    SSH._sshAgentAuthentication, SSH._sshKeyAuthentication,
    SSH._userPassAuthentication, SSH._composeTokenAuthObject,
    SSH._composeAnonymousAuthObject, SSH._composeUserPassObject,
    bind, throw in *.

(** [_connectWithConfig] writes the connection and nothing else. *)
Lemma connectWithConfig_touches_connection_only cfg ty msg t r t' :
  _connectWithConfig cfg ty msg t = (r, t') ->
  same_address t' t /\ SSH._sshUsername t' = SSH._sshUsername t.
Proof.
  intros H.
  destruct (NegotiationMore.connectWithConfig_cases env cfg ty msg t)
    as [(conn & _ & E) | (err & e & _ & E & _)];
    rewrite E in H; inversion H; subst; unfold same_address; simpl; auto.
Qed.

Lemma strategy_keeps_address n this r this' :
  strategies n this = (r, this') -> same_address this' this.
Proof.
  intros H.
  destruct (NegotiationMore.strategy_cases DEFAULT_SSH_READY_TIMEOUT env
              n this)
    as [(cfg & ty & msg & [E | [u E]]) | [[m E] | [(e' & _ & _ & E)
                                                  | (e' & _ & _ & E)]]];
    rewrite E in H;
    try (inversion H; subst; unfold same_address; now auto).
  - now apply connectWithConfig_touches_connection_only in H.
  - apply connectWithConfig_touches_connection_only in H.
    unfold same_address in *. simpl in H. tauto.
Qed.

Lemma connect_from_keeps_address names :
  forall fs lg this,
    same_address (SSH.self (connect_from names fs lg this)) this.
Proof.
  induction names as [| n names IH]; intros fs lg this; simpl.
  - unfold same_address; auto.
  - destruct (strategies n this) as [r this1] eqn:S.
    pose proof (strategy_keeps_address _ _ _ _ S) as A.
    assert (T : forall u, same_address u this1 -> same_address u this)
      by (unfold same_address in *; intros u; intuition congruence).
    destruct r as [[] | e]; simpl; [exact A |].
    destruct (SSH.has_message e); [| exact A].
    destruct e; simpl; try exact A. apply T, IH.
Qed.

(** X4. Whatever the outcome, [connect] leaves the path, the user name,
    the port and the host of the instance as they were: the strategies
    write [connection] and [_sshUsername] only. *)
Theorem connect_keeps_the_address :
  forall names this,
    SSH.path (SSH.self (connect names this)) = SSH.path this
    /\ SSH.username (SSH.self (connect names this)) = SSH.username this
    /\ SSH.port (SSH.self (connect names this)) = SSH.port this
    /\ SSH.host (SSH.self (connect names this)) = SSH.host this.
Proof.
  intros names this. apply connect_from_keeps_address.
Qed.

Lemma agent_and_key_keep_identity n this r this' :
  n = SSH.ssh_agent \/ n = SSH.ssh_key ->
  strategies n this = (r, this') ->
  SSH._sshUsername this' = SSH._sshUsername this.
Proof.
  intros [-> | ->]; simpl; unfold_strategies.
  - destruct (negb _); intros H.
    + now inversion H.
    + now apply connectWithConfig_touches_connection_only in H.
  - destruct (SSH.keyGetter env) as [k | e]; [| intros H; now inversion H].
    destruct (negb _); intros H.
    + now inversion H.
    + now apply connectWithConfig_touches_connection_only in H.
Qed.

Lemma token_sets_identity this r this' :
  Js.truthy configured_token = true ->
  strategies SSH.token this = (r, this') ->
  SSH._sshUsername this' = Some "token".
Proof.
  intros T. simpl. unfold_strategies. rewrite T. intros H.
  now apply connectWithConfig_touches_connection_only in H.
Qed.

(** X7. The identity is written before the handshake and never taken
    back.  The token strategy, when a token is configured, leaves
    [_sshUsername = 'token'] whether the handshake succeeds or not; the
    anonymous strategy leaves ['anonymous'] and the user-password
    strategy the name the prompt gave, likewise; the ssh-agent and
    ssh-key strategies leave [_sshUsername] as they found it. *)
Theorem identity_is_written_before_the_handshake :
  forall this r this',
    (Js.truthy configured_token = true ->
     strategies SSH.token this = (r, this') ->
     SSH._sshUsername this' = Some "token")
    /\ (strategies SSH.anonymous this = (r, this') ->
        SSH._sshUsername this' = Some "anonymous")
    /\ (forall u p,
          SSH.promptUserpass env = Returned (u, p) ->
          strategies SSH.user_password this = (r, this') ->
          SSH._sshUsername this' = Some u)
    /\ (forall n,
          n = SSH.ssh_agent \/ n = SSH.ssh_key ->
          strategies n this = (r, this') ->
          SSH._sshUsername this' = SSH._sshUsername this).
Proof.
  intros this r this'. repeat split.
  - apply token_sets_identity.
  - simpl. unfold_strategies. intros H.
    now apply connectWithConfig_touches_connection_only in H.
  - intros u p P. simpl. unfold_strategies. rewrite P. intros H.
    now apply connectWithConfig_touches_connection_only in H.
  - intros n. apply agent_and_key_keep_identity.
Qed.

Lemma connect_from_agent_or_key names :
  forall fs lg this,
    Forall (fun n => n = SSH.ssh_agent \/ n = SSH.ssh_key) names ->
    SSH._sshUsername (SSH.self (connect_from names fs lg this))
    = SSH._sshUsername this.
Proof.
  induction names as [| n names IH]; intros fs lg this F; simpl.
  - reflexivity.
  - inversion F as [| ? ? Hn F']; subst.
    destruct (strategies n this) as [r this1] eqn:S.
    pose proof (agent_and_key_keep_identity _ _ _ _ Hn S) as A.
    destruct r as [[] | e]; simpl; [exact A |].
    destruct (SSH.has_message e); [| exact A].
    destruct e; simpl; try exact A. now rewrite IH.
Qed.

(** X8. With a token configured, a negotiation over the token strategy
    followed by ssh-agent and ssh-key strategies ends with
    [_sshUsername = 'token'] on the instance, also when the connection
    was made with the agent or the key, or not at all. *)
Theorem token_identity_outlives_the_token_strategy :
  forall rest this,
    Js.truthy configured_token = true ->
    Forall (fun n => n = SSH.ssh_agent \/ n = SSH.ssh_key) rest ->
    SSH._sshUsername (SSH.self (connect (SSH.token :: rest) this))
    = Some "token".
Proof.
  intros rest this T F. unfold SSH.connect.
  cbn [SSH.connect_from].
  destruct (strategies SSH.token this) as [r this1] eqn:S.
  pose proof (token_sets_identity _ _ _ T S) as A.
  destruct r as [[] | e]; simpl; [exact A |].
  destruct (SSH.has_message e); [| exact A].
  destruct e; simpl; try exact A.
  now rewrite connect_from_agent_or_key.
Qed.

(** X9. The strategies that need something the machine lacks fail
    before any handshake, recoverably and without touching the instance:
    no token configured, no agent socket, no key file. *)
Theorem missing_credentials_fail_before_the_handshake :
  forall this,
    (Js.truthy configured_token = false ->
     exists m, strategies SSH.token this
               = (Threw (SSH.AuthenticationStrategyFailed m), this))
    /\ (Js.truthy (SSH.SSH_AUTH_SOCK env) = false ->
        exists m, strategies SSH.ssh_agent this
                  = (Threw (SSH.AuthenticationStrategyFailed m), this))
    /\ (forall k,
          SSH.keyGetter env = Returned k -> Js.truthy k = false ->
          exists m, strategies SSH.ssh_key this
                    = (Threw (SSH.AuthenticationStrategyFailed m), this)).
Proof.
  intros this. repeat split.
  - intros T. simpl. unfold_strategies. rewrite T. eauto.
  - intros T. simpl. unfold_strategies. unfold SSH._hasAgentSocket.
    rewrite T. simpl. eauto.
  - intros k K T. simpl. unfold_strategies. rewrite K, T. simpl. eauto.
Qed.

End Identity.

Lemma identity_is_written_before_the_handshake_witness :
  exists m,
    fst (SSH.strategies 99000 Demo.stale_token SSH.token Demo.offline)
      = Threw (SSH.AuthenticationStrategyFailed m)
    /\ SSH._sshUsername
         (snd (SSH.strategies 99000 Demo.stale_token SSH.token Demo.offline))
       = Some "token".
Proof.
  eexists. split; [reflexivity |].
  exact (proj1 (identity_is_written_before_the_handshake 99000
                  Demo.stale_token Demo.offline _ _) eq_refl eq_refl).
Defined.

Lemma token_identity_outlives_the_token_strategy_witness :
  SSH.tried (SSH.connect 99000 Demo.stale_token
               [SSH.token; SSH.ssh_agent; SSH.ssh_key] Demo.offline)
    = [SSH.token; SSH.ssh_agent; SSH.ssh_key]
  /\ SSH._sshUsername
       (SSH.self (SSH.connect 99000 Demo.stale_token
                    [SSH.token; SSH.ssh_agent; SSH.ssh_key] Demo.offline))
     = Some "token".
Proof.
  split; [reflexivity |].
  apply (token_identity_outlives_the_token_strategy 99000 Demo.stale_token
           [SSH.ssh_agent; SSH.ssh_key] Demo.offline eq_refl).
  exact (Forall_cons _ (or_introl eq_refl)
           (Forall_cons _ (or_intror eq_refl) (Forall_nil _))).
Defined.

Lemma missing_credentials_fail_before_the_handshake_witness :
  (exists m, SSH.strategies 99000 Demo.locked_out SSH.token Demo.offline
             = (Threw (SSH.AuthenticationStrategyFailed m), Demo.offline))
  /\ (exists m, SSH.strategies 99000 Demo.locked_out SSH.ssh_agent
                  Demo.offline
                = (Threw (SSH.AuthenticationStrategyFailed m), Demo.offline))
  /\ (exists m, SSH.strategies 99000 Demo.locked_out SSH.ssh_key Demo.offline
                = (Threw (SSH.AuthenticationStrategyFailed m), Demo.offline)).
Proof.
  destruct (missing_credentials_fail_before_the_handshake 99000
              Demo.locked_out Demo.offline) as (H1 & H2 & H3).
  split; [exact (H1 eq_refl) | split; [exact (H2 eq_refl) |]].
  exact (H3 Js.Null eq_refl eq_refl).
Defined.

End IdentityFacts.

(* ================================================================== *)
(** ** More facts about the error translator *)

Module TranslatorMore.

Section Translator.

Variable unpackCommand : Js.value -> bool -> option Js.value.
Variable check : Js.value -> outcome SSH.exn Js.value.

Local Notation "'errorHandler'" := (SSH.errorHandler unpackCommand check).
Local Notation "'checkVersionCompatibility'" :=
  (SSH.checkVersionCompatibility check).

(** X10. An error text the codec cannot decode leaves the version cell
    alone and comes back as it is in the error of every row that carries
    text; row 131 carries the empty list and row 134 ['unknown'] for both
    scopes. *)
Theorem errorHandler_on_undecodable_text :
  forall this err cell code,
    unpackCommand err false = None ->
    errorHandler this 127 err cell = (SSH.ComponentNotFound err, cell)
    /\ errorHandler this 129 err cell = (SSH.RemoteScopeNotFound err, cell)
    /\ errorHandler this 131 err cell
       = (SSH.MergeConflictOnRemote (Js.Arr []), cell)
    /\ errorHandler this 132 err cell = (SSH.CustomError err, cell)
    /\ errorHandler this 133 err cell = (SSH.OldClientVersion err, cell)
    /\ errorHandler this 134 err cell
       = (SSH.ExportAnotherOwnerPrivate err (Js.Str "unknown")
            (Js.Str "unknown"), cell)
    /\ ((code < 127 \/ 134 < code)%Z ->
        errorHandler this code err cell
        = (SSH.UnexpectedNetworkError err, cell)).
Proof.
  intros this err cell code H. unfold SSH.errorHandler.
  rewrite (TranslatorFacts.parsedErrorOf_undecodable _ _ _ _ H).
  repeat split.
  intros Hcode.
  assert (Hne : forall n, (127 <= n <= 134)%Z -> (code =? n)%Z = false)
    by (intros n Hn; apply Z.eqb_neq; lia).
  rewrite !Hne by lia. reflexivity.
Qed.

(** X11. Exit codes 128 and 130 give [PermissionDenied] on the host and
    path of the instance, whatever the error text is and whatever the
    codec makes of it. *)
Theorem permission_denied_ignores_the_error_text :
  forall this err cell,
    fst (errorHandler this 128 err cell)
      = SSH.PermissionDenied (SSH.host this ++ ":" ++ SSH.path this)
    /\ fst (errorHandler this 130 err cell)
       = SSH.PermissionDenied (SSH.host this ++ ":" ++ SSH.path this).
Proof.
  intros this err cell. unfold SSH.errorHandler.
  destruct (SSH.parsedErrorOf unpackCommand check err cell) as [r cell'].
  split; reflexivity.
Qed.

(** X12. A version the check rejects, met first in an error envelope, is
    never reported: the translator swallows the exception, drops the
    decoded payload (row 127 carries the raw text, not [payload.id]), and
    leaves the cell used, so that every later check returns [undefined]
    without running. *)
Theorem errorHandler_swallows_an_incompatible_version :
  forall this err unpacked headers version e cell,
    Once.called cell = false ->
    unpackCommand err false = Some unpacked ->
    Js.get unpacked "headers" = Some headers ->
    Js.get headers "version" = Some version ->
    check version = Threw e ->
    let cell' := {| Once.called := true; Once.result := None;
                    Once.ran := (Once.ran cell ++ [version])%list |} in
    errorHandler this 127 err cell = (SSH.ComponentNotFound err, cell')
    /\ forall version',
         checkVersionCompatibility version' cell' = (Returned None, cell').
Proof.
  intros this err unpacked headers version e cell Hc Hu Hh Hv He cell'.
  assert (Hp : exists payload, Js.get unpacked "payload" = Some payload)
    by (destruct unpacked; simpl in *; try discriminate; eauto).
  destruct Hp as [payload Hp].
  split; [| reflexivity].
  unfold SSH.errorHandler, SSH.parsedErrorOf, try_catch, bind, SSH._unpack,
    SSH.destructure, SSH.field, SSH.checkVersionCompatibility, Once.call,
    bind, ret.
  rewrite Hu; simpl. rewrite Hh, Hp; simpl. rewrite Hv; simpl.
  rewrite Hc, He. reflexivity.
Qed.

End Translator.

Lemma errorHandler_on_undecodable_text_witness :
  SSH.errorHandler Demo.unpackCommand Demo.compatible Demo.online 129
    (Js.Str "boom") Once.fresh
  = (SSH.RemoteScopeNotFound (Js.Str "boom"), Once.fresh).
Proof.
  apply (errorHandler_on_undecodable_text Demo.unpackCommand Demo.compatible
           Demo.online (Js.Str "boom") Once.fresh 1 eq_refl).
Defined.

Lemma errorHandler_swallows_an_incompatible_version_witness :
  fst (SSH.errorHandler Demo.unpackCommand Demo.incompatible Demo.online 127
         (Js.Str "E3") Once.fresh)
  = SSH.ComponentNotFound (Js.Str "E3").
Proof.
  exact (f_equal fst
           (proj1 (errorHandler_swallows_an_incompatible_version
                     Demo.unpackCommand Demo.incompatible Demo.online
                     (Js.Str "E3") _ _ (Js.Str "1") _ Once.fresh
                     eq_refl eq_refl eq_refl eq_refl eq_refl))).
Defined.

End TranslatorMore.

(* ================================================================== *)
(** ** Facts about the other verbs *)

Module VerbFacts.

Section Verbs.

Variable unpackCommand : Js.value -> bool -> option Js.value.
Variable check : Js.value -> outcome SSH.exn Js.value.
Variable fromObjects : Js.value -> outcome SSH.exn Js.value.
Variable fromString : Js.value -> outcome SSH.exn Js.value.
Variable loadFromString : Js.value -> outcome SSH.exn Js.value.

Local Notation "'checkVersionCompatibility'" :=
  (SSH.checkVersionCompatibility check).
Local Notation "'unpack_checked'" := (SSH.unpack_checked unpackCommand check).
Local Notation "'pushMany'" := (SSH.pushMany unpackCommand check).
Local Notation "'deleteMany'" := (SSH.deleteMany unpackCommand fromObjects).
Local Notation "'deprecateMany'" := (SSH.deprecateMany unpackCommand).
Local Notation "'undeprecateMany'" := (SSH.undeprecateMany unpackCommand).
Local Notation "'describeScope'" := (SSH.describeScope unpackCommand check).
Local Notation "'latestVersions'" := (SSH.latestVersions unpackCommand check).
Local Notation "'search'" := (SSH.search unpackCommand check).
Local Notation "'show'" := (SSH.show unpackCommand check fromString).
Local Notation "'graph'" := (SSH.graph unpackCommand check loadFromString).

Ltac unfold_verbs :=
  unfold SSH.pushMany, SSH.deleteMany, SSH.deprecateMany,
    SSH.undeprecateMany, SSH.describeScope, SSH.latestVersions, SSH.search,
    SSH.show, SSH.graph, SSH.and_then, SSH.pushMany_then,
    SSH.deleteMany_then, SSH.deprecateMany_then, SSH.undeprecateMany_then,
    SSH.show_then, SSH.graph_then, SSH.unpack_checked, SSH.unpack_payload,
    SSH._unpack, SSH.destructure, SSH.field, SSH.lift, try_catch, bind,
    throw, ret in *.

Lemma unpack_checked_decoded data version payload cell :
  decodes_to unpackCommand data version payload ->
  unpack_checked data cell
  = match checkVersionCompatibility version cell with
    | (Returned _, cell') => (Returned payload, cell')
    | (Threw e, cell') => (Threw e, cell')
    end.
Proof.
  intros (unpacked & headers & Hu & Hh & Hp & Hv). unfold_verbs.
  rewrite Hu; simpl. rewrite Hh, Hp; simpl. rewrite Hv.
  destruct (checkVersionCompatibility version cell) as [[r | e] cell'];
    reflexivity.
Qed.

Lemma unpack_checked_undecodable data cell :
  unpackCommand (Js.Str data) true = None ->
  unpack_checked data cell
  = (Threw (SSH.SSHInvalidResponse (Js.Str data)), cell).
Proof.
  intros H. unfold_verbs. now rewrite H.
Qed.

(** X13. [describeScope] fails in one way only: whatever [exec] rejected
    with, whatever the codec or the version check threw, the error is
    [RemoteScopeNotFound] on the path of the instance. *)
Theorem describeScope_fails_uniformly :
  forall this s cell,
    (forall e,
        fst (describeScope this s cell) = Threw e ->
        e = SSH.RemoteScopeNotFound (Js.Str (SSH.path this)))
    /\ (forall reason,
          describeScope this (SSH.Rejected reason) cell
          = (Threw (SSH.RemoteScopeNotFound (Js.Str (SSH.path this))),
             cell)).
Proof.
  intros this s cell. split; [| reflexivity].
  intros e. unfold SSH.describeScope, try_catch.
  destruct (SSH.and_then s unpack_checked cell) as [[p | e'] cell'];
    simpl; intros H; [discriminate | now inversion H].
Qed.

(** X14. [deleteMany], [deprecateMany] and [undeprecateMany] decode the
    envelope and never call the version check: the cell is as it was,
    whatever the response and whatever version it carries. *)
Theorem deletion_and_deprecation_skip_the_version_check :
  forall s cell,
    snd (deleteMany s cell) = cell
    /\ snd (deprecateMany s cell) = cell
    /\ snd (undeprecateMany s cell) = cell.
Proof.
  intros [data | reason] cell; unfold_verbs; [| repeat split].
  destruct (unpackCommand (Js.Str data) true) as [unpacked |];
    [| repeat split].
  destruct (Js.get unpacked "payload"); repeat split.
Qed.

(** X15. A response the codec cannot decode makes every verb that uses
    the codec throw [SSHInvalidResponse] holding the response text, with
    the version cell left alone. *)
Theorem undecodable_response_is_invalid :
  forall data cell,
    unpackCommand (Js.Str data) true = None ->
    let invalid := (@Threw SSH.exn Js.value
                      (SSH.SSHInvalidResponse (Js.Str data)), cell) in
    pushMany (SSH.Resolved data) cell = invalid
    /\ deleteMany (SSH.Resolved data) cell = invalid
    /\ deprecateMany (SSH.Resolved data) cell = invalid
    /\ undeprecateMany (SSH.Resolved data) cell = invalid
    /\ latestVersions (SSH.Resolved data) cell = invalid
    /\ search (SSH.Resolved data) cell = invalid
    /\ show (SSH.Resolved data) cell = invalid
    /\ graph (SSH.Resolved data) cell = invalid.
Proof.
  intros data cell H invalid. subst invalid. unfold_verbs.
  rewrite H. repeat split.
Qed.

(** X16. The verbs that check do so on [headers.version] and before
    anything else is done with the payload: on a response that decodes,
    with a cell that lets the call through, [latestVersions], [search]
    and [describeScope] return the payload, [graph] hands it to
    [DependencyGraph.loadFromString], [show] hands it to
    [ConsumerComponent.fromString] unless the response text is empty, and
    the cell is the one a single call of the check leaves. *)
Theorem checking_verbs_check_the_header_version :
  forall this data version payload cell,
    decodes_to unpackCommand data version payload ->
    lets_through check version cell ->
    let cell' := snd (checkVersionCompatibility version cell) in
    latestVersions (SSH.Resolved data) cell = (Returned payload, cell')
    /\ search (SSH.Resolved data) cell = (Returned payload, cell')
    /\ describeScope this (SSH.Resolved data) cell
       = (Returned payload, cell')
    /\ graph (SSH.Resolved data) cell = (loadFromString payload, cell')
    /\ show (SSH.Resolved data) cell
       = (if data =? "" then Returned Js.Null else fromString payload,
          cell').
Proof.
  intros this data version payload cell D L cell'. subst cell'.
  pose proof (unpack_checked_decoded data version payload cell D) as U.
  destruct (TranslatorFacts.once_call_passes check version cell L)
    as (r & c & Hc).
  unfold SSH.checkVersionCompatibility in *. rewrite Hc in U |- *.
  unfold SSH.latestVersions, SSH.search, SSH.describeScope, SSH.graph,
    SSH.show, SSH.graph_then, SSH.show_then, SSH.and_then, try_catch, bind,
    SSH.lift, ret.
  rewrite U. simpl. repeat split.
  destruct (data =? ""); reflexivity.
Qed.

(** X17. A version the check rejects is reported once.  The first verb
    that meets it throws what the check threw; the cell is then used, and
    the same response, sent again, is decoded and returned as if the
    version were fine. *)
Theorem incompatible_version_is_reported_once :
  forall data version payload e cell,
    Once.called cell = false ->
    decodes_to unpackCommand data version payload ->
    check version = Threw e ->
    let cell' := snd (latestVersions (SSH.Resolved data) cell) in
    fst (latestVersions (SSH.Resolved data) cell) = Threw e
    /\ latestVersions (SSH.Resolved data) cell' = (Returned payload, cell').
Proof.
  intros data version payload e cell Hc D He cell'. subst cell'.
  unfold SSH.latestVersions, SSH.and_then.
  rewrite (unpack_checked_decoded data version payload cell D).
  assert (E : checkVersionCompatibility version cell
              = (Threw e,
                 {| Once.called := true; Once.result := None;
                    Once.ran := (Once.ran cell ++ [version])%list |}))
    by (unfold SSH.checkVersionCompatibility, Once.call; now rewrite Hc, He).
  rewrite E. simpl. split; [reflexivity |].
  now rewrite (unpack_checked_decoded data version payload _ D).
Qed.

End Verbs.

Lemma describeScope_fails_uniformly_witness :
  exists e,
    fst (SSH.describeScope Demo.unpackCommand Demo.compatible Demo.online
           (SSH.Resolved "garbage") Once.fresh) = Threw e
    /\ e = SSH.RemoteScopeNotFound (Js.Str "scopes/main").
Proof.
  eexists. split; [reflexivity |].
  exact (proj1 (describeScope_fails_uniformly Demo.unpackCommand
                  Demo.compatible Demo.online (SSH.Resolved "garbage")
                  Once.fresh) _ eq_refl).
Defined.

Lemma undecodable_response_is_invalid_witness :
  SSH.graph Demo.unpackCommand Demo.compatible Demo.manyFromString
    (SSH.Resolved "garbage") Once.fresh
  = (Threw (SSH.SSHInvalidResponse (Js.Str "garbage")), Once.fresh).
Proof.
  apply (undecodable_response_is_invalid Demo.unpackCommand Demo.compatible
           Demo.manyFromString Demo.manyFromString Demo.manyFromString
           "garbage" Once.fresh eq_refl).
Defined.

Lemma checking_verbs_check_the_header_version_witness :
  fst (SSH.latestVersions Demo.unpackCommand Demo.compatible
         (SSH.Resolved "E3") Once.fresh)
  = Returned (Js.Obj [("ids", Js.Arr [Js.Str "my/comp"])]).
Proof.
  apply (f_equal fst
           (proj1 (checking_verbs_check_the_header_version
                     Demo.unpackCommand Demo.compatible Demo.manyFromString
                     Demo.manyFromString Demo.online "E3" (Js.Str "1")
                     (Js.Obj [("ids", Js.Arr [Js.Str "my/comp"])]) Once.fresh
                     (ex_intro _ _ (ex_intro _ _
                        (conj eq_refl (conj eq_refl (conj eq_refl eq_refl)))))
                     (or_intror (ex_intro _ Js.Undefined eq_refl))))).
Defined.

Lemma incompatible_version_is_reported_once_witness :
  fst (SSH.latestVersions Demo.unpackCommand Demo.incompatible
         (SSH.Resolved "E3") Once.fresh)
  = Threw (SSH.GeneralError "incompatible versions")
  /\ fst (SSH.latestVersions Demo.unpackCommand Demo.incompatible
            (SSH.Resolved "E3")
            (snd (SSH.latestVersions Demo.unpackCommand Demo.incompatible
                    (SSH.Resolved "E3") Once.fresh)))
     = Returned (Js.Obj [("ids", Js.Arr [Js.Str "my/comp"])]).
Proof.
  destruct (incompatible_version_is_reported_once Demo.unpackCommand
              Demo.incompatible "E3" (Js.Str "1")
              (Js.Obj [("ids", Js.Arr [Js.Str "my/comp"])]) _ Once.fresh
              eq_refl
              (ex_intro _ _ (ex_intro _ _
                 (conj eq_refl (conj eq_refl (conj eq_refl eq_refl)))))
              eq_refl) as [H1 H2].
  split; [exact H1 | now rewrite H2].
Defined.

End VerbFacts.

(* ================================================================== *)
(** ** Facts about the texts the program cuts *)

Module TextFacts.

Lemma drop_length n : forall s,
  String.length (Js.drop n s) = String.length s - n.
Proof.
  induction n as [| n IH]; intros s; simpl; [lia |].
  destruct s as [| c s]; simpl; [reflexivity | apply IH].
Qed.

Lemma prefix_length p : forall s,
  String.prefix p s = true -> String.length p <= String.length s.
Proof.
  induction p as [| a p IH]; intros s; simpl; [lia |].
  destruct s as [| b s]; simpl; [intros H; discriminate H |].
  destruct (ascii_dec a b); [| intros H; discriminate H].
  intros H. apply IH in H. lia.
Qed.

Lemma includes_length p : forall s,
  Js.includes s p = true -> String.length p <= String.length s.
Proof.
  induction s as [| c s IH]; cbn [Js.includes].
  - destruct (String.prefix p "") eqn:E; [| intros H; discriminate H].
    intros _. now apply prefix_length.
  - destruct (String.prefix p (String c s)) eqn:E.
    + intros _. now apply prefix_length.
    + intros H. apply IH in H. simpl. lia.
Qed.

(** [replace] with a string pattern takes out one occurrence of the
    pattern when there is one, and nothing otherwise. *)
Lemma replace_first_length p : forall s,
  String.length (Js.replace_first p s)
  = String.length s - (if Js.includes s p then String.length p else 0).
Proof.
  induction s as [| c s IH]; cbn [Js.includes Js.replace_first].
  - destruct (String.prefix p ""); [apply drop_length | reflexivity].
  - destruct (String.prefix p (String c s)); [apply drop_length |].
    cbn [String.length]. rewrite IH.
    destruct (Js.includes s p) eqn:E; [| lia].
    apply includes_length in E. lia.
Qed.

Lemma includes_middle (a b p : string) :
  Js.includes (a ++ p ++ b) p = true.
Proof.
  assert (P : forall q t, String.prefix q (q ++ t) = true).
  { induction q as [| c q IHq]; intros t; simpl; [now destruct t |].
    destruct (ascii_dec c c) as [_ | N]; [apply IHq | now contradiction N]. }
  assert (U : forall t,
             Js.includes t p
             = if String.prefix p t then true
               else match t with
                    | EmptyString => false
                    | String _ t' => Js.includes t' p
                    end) by (intros t; destruct t; reflexivity).
  induction a as [| c a IH].
  - cbn [append]. rewrite U, P. reflexivity.
  - cbn [append]. rewrite U.
    destruct (String.prefix p (String c (a ++ p ++ b))); [reflexivity |].
    exact IH.
Qed.

Lemma clean_length s :
  String.length (SSH.clean s)
  = String.length s - (if Js.includes s Js.newline then 1 else 0).
Proof.
  unfold SSH.clean. now rewrite replace_first_length.
Qed.

Lemma replace_first_unfold pat t :
  Js.replace_first pat t
  = if String.prefix pat t then Js.drop (String.length pat) t
    else match t with
         | EmptyString => EmptyString
         | String c t' => String c (Js.replace_first pat t')
         end.
Proof. destruct t; reflexivity. Qed.

Lemma includes_unfold pat t :
  Js.includes t pat
  = if String.prefix pat t then true
    else match t with
         | EmptyString => false
         | String _ t' => Js.includes t' pat
         end.
Proof. destruct t; reflexivity. Qed.

Lemma prefix_split p : forall s,
  String.prefix p s = true -> exists rest, s = p ++ rest.
Proof.
  induction p as [| a p IH]; intros s.
  - exists s. reflexivity.
  - destruct s as [| b s]; simpl; [intros H; discriminate H |].
    destruct (ascii_dec a b) as [<- | _]; [| intros H; discriminate H].
    intros H. destruct (IH s H) as [rest ->]. now exists rest.
Qed.

(** The occurrence [replace] takes out is the first one. *)
Lemma replace_first_at pat before after :
  none_earlier pat before (pat ++ after) = true ->
  Js.replace_first pat (before ++ pat ++ after) = before ++ after.
Proof.
  induction before as [| c before IH]; cbn [none_earlier append].
  - intros _. apply ChannelFacts.replace_first_leading.
  - intros H. apply andb_prop in H. destruct H as [H1 H2].
    rewrite replace_first_unfold.
    apply negb_true_iff in H1. rewrite H1. now rewrite IH.
Qed.

(** A text that holds the pattern splits at its first occurrence. *)
Lemma includes_split pat : forall s,
  Js.includes s pat = true ->
  exists before after,
    s = before ++ pat ++ after
    /\ none_earlier pat before (pat ++ after) = true.
Proof.
  induction s as [| c s IH]; rewrite includes_unfold.
  - destruct (String.prefix pat "") eqn:P; [| intros H; discriminate H].
    intros _. destruct (prefix_split _ _ P) as [after E].
    exists "", after. split; [exact E | reflexivity].
  - destruct (String.prefix pat (String c s)) eqn:P.
    + intros _. destruct (prefix_split _ _ P) as [after E].
      exists "", after. split; [exact E | reflexivity].
    + intros H. destruct (IH H) as (before & after & E & N).
      exists (String c before), after. split.
      * cbn [append]. now rewrite E.
      * cbn [none_earlier append]. rewrite <- E, P. exact N.
Qed.

Lemma prefix_char (a c : ascii) (t : string) :
  String.prefix (String a "") (String c t)
  = if ascii_dec a c then true else false.
Proof.
  cbn [String.prefix]. destruct (ascii_dec a c); [| reflexivity].
  now destruct t.
Qed.

(** For a pattern of one character, nothing earlier means the character
    is not in the text before. *)
Lemma none_earlier_char (a : ascii) before rest :
  none_earlier (String a "") before rest
  = negb (Js.includes before (String a "")).
Proof.
  induction before as [| c before IH]; [reflexivity |].
  cbn [none_earlier append]. rewrite includes_unfold, IH, !prefix_char.
  now destruct (ascii_dec a c).
Qed.

(** X18. [clean] takes out the first newline of a text and nothing
    else: a text without a newline comes back as it is, and a text
    [before ++ newline ++ after] whose [before] holds no newline comes
    back as [before ++ after], later newlines included; every text with
    a newline splits that way. *)
Theorem clean_removes_the_first_newline :
  forall s,
    (Js.includes s Js.newline = false -> SSH.clean s = s)
    /\ (forall before after,
          s = before ++ Js.newline ++ after ->
          Js.includes before Js.newline = false ->
          SSH.clean s = before ++ after)
    /\ (Js.includes s Js.newline = true ->
        exists before after,
          s = before ++ Js.newline ++ after
          /\ Js.includes before Js.newline = false).
Proof.
  intros s. unfold SSH.clean. repeat split.
  - apply ChannelFacts.replace_first_absent.
  - intros before after -> H. apply replace_first_at.
    unfold Js.newline. rewrite none_earlier_char.
    fold Js.newline. now rewrite H.
  - intros H. destruct (includes_split _ _ H) as (before & after & E & N).
    exists before, after. split; [exact E |].
    unfold Js.newline in N. rewrite none_earlier_char in N.
    now apply negb_true_iff in N.
Qed.

(** X19. The removal of the echo in the ['close'] handler.  For ['_put']
    the first occurrence of the payload in the stdout text is taken out
    and the rest of the text, before and after it, stays as it is; a
    text that holds the payload splits at such a first occurrence;
    nothing changes when the payload does not occur; and for every other
    verb the stream is left as it is.  The other variables of the stream
    are never touched. *)
Theorem echo_removal_takes_the_first_occurrence :
  forall commandName payload st,
    (forall before after,
        SSH.res st = before ++ payload ++ after ->
        none_earlier payload before (payload ++ after) = true ->
        SSH.strip_echo "_put" payload st
        = SSH.set_res (before ++ after) st)
    /\ (Js.includes (SSH.res st) payload = true ->
        exists before after,
          SSH.res st = before ++ payload ++ after
          /\ none_earlier payload before (payload ++ after) = true)
    /\ (Js.includes (SSH.res st) payload = false ->
        SSH.strip_echo "_put" payload st = st)
    /\ ((commandName =? "_put") = false ->
        SSH.strip_echo commandName payload st = st).
Proof.
  intros commandName payload st. unfold SSH.strip_echo.
  repeat split.
  - intros before after E N. simpl. rewrite E.
    now rewrite replace_first_at.
  - apply includes_split.
  - intros H. simpl. rewrite ChannelFacts.replace_first_absent by exact H.
    now destruct st.
  - now intros ->.
Qed.

(** X20. [absolutePath] returns a path that starts with ['/'] or with
    ['~/'] and ends with the path given; a path that starts with ['/']
    comes back unchanged, and a relative one gets a second ['~/'] when
    the function is applied again. *)
Theorem absolutePath_anchors_the_path :
  forall path,
    (Js.startsWith (SSH.absolutePath path) "/" = true
     \/ Js.startsWith (SSH.absolutePath path) "~/" = true)
    /\ (exists anchor, SSH.absolutePath path = anchor ++ path)
    /\ (Js.startsWith path "/" = true -> SSH.absolutePath path = path)
    /\ (Js.startsWith path "/" = false ->
        SSH.absolutePath (SSH.absolutePath path) = "~/~/" ++ path).
Proof.
  intros path. unfold SSH.absolutePath.
  destruct (Js.startsWith path "/") eqn:E; repeat split;
    try discriminate; auto.
  - exists "". reflexivity.
  - right. unfold Js.startsWith. simpl. now destruct path.
  - exists "~/". reflexivity.
Qed.

Lemma clean_removes_the_first_newline_witness :
  SSH.clean ("E3" ++ Js.newline ++ "E4" ++ Js.newline)
  = "E3" ++ "E4" ++ Js.newline.
Proof.
  exact (proj1 (proj2 (clean_removes_the_first_newline
                         ("E3" ++ Js.newline ++ "E4" ++ Js.newline)))
           "E3" ("E4" ++ Js.newline) eq_refl eq_refl).
Defined.

Lemma echo_removal_takes_the_first_occurrence_witness :
  SSH.res (SSH.strip_echo "_put" "PAY"
             {| SSH.res := "abc" ++ "PAY" ++ "defPAY";
                SSH.err := Js.Undefined; SSH.timers := [];
                SSH.promise := None |})
  = "abcdefPAY".
Proof.
  exact (f_equal SSH.res
           (proj1 (echo_removal_takes_the_first_occurrence "_put" "PAY"
                     {| SSH.res := "abc" ++ "PAY" ++ "defPAY";
                        SSH.err := Js.Undefined; SSH.timers := [];
                        SSH.promise := None |})
              "abc" "defPAY" eq_refl eq_refl)).
Defined.

Lemma absolutePath_anchors_the_path_witness :
  SSH.absolutePath "/srv/scopes" = "/srv/scopes"
  /\ SSH.absolutePath (SSH.absolutePath "scopes/main") = "~/~/scopes/main".
Proof.
  split.
  - exact (proj1 (proj2 (proj2 (absolutePath_anchors_the_path
                                  "/srv/scopes"))) eq_refl).
  - exact (proj2 (proj2 (proj2 (absolutePath_anchors_the_path
                                  "scopes/main"))) eq_refl).
Defined.

End TextFacts.

(* ================================================================== *)
(** ** More facts about the execution stream *)

Module ChannelMore.

Section Channel.

Variable unpackCommand : Js.value -> bool -> option Js.value.
Variable check : Js.value -> outcome SSH.exn Js.value.
Variable this : SSH.SSH.
Variables commandName payload : string.

Local Notation "'promiseExit'" := (SSH.promiseExit unpackCommand check this).
Local Notation "'handle'" :=
  (SSH.handle unpackCommand check this commandName payload).
Local Notation "'run'" :=
  (SSH.run unpackCommand check this commandName payload).
Local Notation "'exec'" := (SSH.exec unpackCommand check this).
Local Notation "'errorHandler'" := (SSH.errorHandler unpackCommand check this).
Local Notation "'zero'" := (fun c : option Z => c = None \/ c = Some 0%Z).

(** X21. A ['close'] with a non-zero exit code that finds the promise
    pending rejects it with what the translator makes of that code and of
    the last stderr chunk delivered before it -- [undefined] when there
    was none --, called with the version cell the process had when the
    command started. *)
Theorem close_rejects_with_the_last_stderr_chunk :
  forall before c signal later cell,
    SSH.promise (fst (run before SSH.opened cell)) = None ->
    c <> 0%Z ->
    SSH.promise
      (fst (run (before ++ SSH.Close (Some c) signal :: later)%list
              SSH.opened cell))
    = Some (SSH.Rejected
              (fst (errorHandler c (last_stderr Js.Undefined before) cell))).
Proof.
  intros before c signal later cell P Hc.
  destruct (ChannelFacts.run_pending unpackCommand check this commandName
              payload before SSH.opened cell P) as (_ & _ & E & C).
  rewrite ChannelFacts.run_app,
    (ChannelFacts.close_settles _ _ _ _ _ _ _ _ _ _ P), E, C.
  unfold verdict. apply Z.eqb_neq in Hc. now rewrite Hc.
Qed.

(** X22. The expiry of an exit timer resolves with the stdout delivered
    so far without its first newline, for every verb: for ['_put'] too,
    where the echo of the payload, which the ['close'] handler removes,
    stays in. *)
Theorem exit_timer_keeps_the_echo :
  forall before code others later cell,
    SSH.promise (fst (run before SSH.opened cell)) = None ->
    SSH.timers (fst (run before SSH.opened cell)) = code :: others ->
    code = None \/ code = Some 0%Z ->
    SSH.promise
      (fst (run (before ++ SSH.Expire :: later)%list SSH.opened cell))
    = Some (SSH.Resolved (SSH.clean (stdout_of before))).
Proof.
  intros before code others later cell P T Hcode.
  destruct (ChannelFacts.run_pending unpackCommand check this commandName
              payload before SSH.opened cell P) as (_ & R & _ & _).
  rewrite ChannelFacts.run_app,
    (ChannelFacts.expiry_settles _ _ _ _ _ _ _ _ _ _ P T), R.
  destruct Hcode as [-> | ->]; reflexivity.
Qed.

Lemma promiseExit_zero code st cell :
  zero code ->
  promiseExit code st cell
  = (SSH.settle (SSH.Resolved (SSH.clean (SSH.res st))) st, cell).
Proof.
  intros [-> | ->]; reflexivity.
Qed.

Lemma settle_timers s st : SSH.timers (SSH.settle s st) = SSH.timers st.
Proof.
  unfold SSH.settle. now destruct (SSH.promise st).
Qed.

Lemma strip_echo_timers st :
  SSH.timers (SSH.strip_echo commandName payload st) = SSH.timers st.
Proof.
  unfold SSH.strip_echo. now destruct (commandName =? "_put").
Qed.

Lemma run_all_zero events :
  forall st cell,
    all_zero events = true ->
    Forall zero (SSH.timers st) ->
    snd (run events st cell) = cell.
Proof.
  induction events as [| ev events IH]; intros st cell A F;
    [reflexivity |].
  cbn [SSH.run].
  destruct ev as [r | r | code | code signal |]; cbn [SSH.handle].
  - apply IH; [exact A | exact F].
  - apply IH; [exact A | exact F].
  - apply IH.
    + destruct code as [c |]; simpl in A; [| exact A].
      now apply andb_prop in A.
    + simpl. apply Forall_app. split; [exact F |].
      constructor; [| constructor].
      destruct code as [c |]; [| now left].
      simpl in A. apply andb_prop in A. destruct A as [A _].
      apply Z.eqb_eq in A. subst. now right.
  - assert (Z0 : zero code).
    { destruct code as [c |]; [| now left].
      simpl in A. apply andb_prop in A. destruct A as [A _].
      apply Z.eqb_eq in A. subst. now right. }
    rewrite (promiseExit_zero _ _ _ Z0). apply IH.
    + destruct code as [c |]; simpl in A; [| exact A].
      now apply andb_prop in A.
    + now rewrite settle_timers, strip_echo_timers.
  - destruct (SSH.timers st) as [| code later] eqn:T.
    + apply IH; [exact A | now rewrite T].
    + inversion F as [| ? ? Z0 F']; subst.
      rewrite (promiseExit_zero _ _ _ Z0). apply IH; [exact A |].
      now rewrite settle_timers.
Qed.

(** X23. A command whose stream reports success only -- every ['exit']
    and ['close'] with code 0 or none -- never reaches the translator:
    the version cell of the process is after it what it was before. *)
Theorem successful_stream_leaves_the_version_cell :
  forall events cell,
    all_zero events = true ->
    snd (run events SSH.opened cell) = cell.
Proof.
  intros events cell A. apply run_all_zero; [exact A | constructor].
Qed.

(** X24. Without a connection [exec] rejects at once with the text
    ['ssh connection is not defined'], and with the error of the
    transport when [connection.exec] reports one that [if (error)] takes
    for an error: in both cases no handler is registered, so nothing the
    stream delivers is looked at and the version cell is left alone.
    With a connection and no error, or an error value that is falsy, the
    handlers are registered and the stream is processed. *)
Theorem exec_fails_fast :
  forall exec_error events cell,
    (SSH.connection this = None ->
     snd (exec commandName payload exec_error events cell) = cell
     /\ SSH.promise (fst (exec commandName payload exec_error events cell))
        = Some (SSH.Rejected
                  (SSH.Foreign (Js.Str "ssh connection is not defined"))))
    /\ (forall error,
          SSH.connection this <> None ->
          exec_error = Some error ->
          Js.truthy error = true ->
          snd (exec commandName payload exec_error events cell) = cell
          /\ SSH.promise
               (fst (exec commandName payload exec_error events cell))
             = Some (SSH.Rejected (SSH.Foreign error)))
    /\ (SSH.connection this <> None ->
        exec_error = None
        \/ (exists error,
              exec_error = Some error /\ Js.truthy error = false) ->
        exec commandName payload exec_error events cell
        = run events SSH.opened cell).
Proof.
  intros exec_error events cell. unfold SSH.exec. split; [| split].
  - intros ->. split; reflexivity.
  - intros error N -> T. rewrite T.
    destruct (SSH.connection this); [split; reflexivity | now contradiction N].
  - intros N H.
    destruct (SSH.connection this); [| now contradiction N].
    destruct H as [-> | (error & -> & T)]; [reflexivity | now rewrite T].
Qed.

End Channel.

Lemma close_rejects_with_the_last_stderr_chunk_witness :
  SSH.promise
    (fst (SSH.run Demo.unpackCommand Demo.compatible Demo.online "_list" ""
            ([SSH.StderrData "E1"; SSH.StderrData "E4"]
             ++ [SSH.Close (Some 132%Z) Js.Undefined])%list
            SSH.opened Once.fresh))
  = Some (SSH.Rejected (SSH.CustomError (Js.Str "blocked"))).
Proof.
  exact (close_rejects_with_the_last_stderr_chunk Demo.unpackCommand
           Demo.compatible Demo.online "_list" ""
           [SSH.StderrData "E1"; SSH.StderrData "E4"] 132%Z Js.Undefined []
           Once.fresh eq_refl ltac:(discriminate)).
Defined.

Lemma exit_timer_keeps_the_echo_witness :
  SSH.promise
    (fst (SSH.run Demo.unpackCommand Demo.compatible Demo.online "_put"
            "payload"
            ([SSH.Data "payloadE3"; SSH.Exit (Some 0%Z)]
             ++ [SSH.Expire])%list
            SSH.opened Once.fresh))
  = Some (SSH.Resolved "payloadE3").
Proof.
  exact (exit_timer_keeps_the_echo Demo.unpackCommand Demo.compatible
           Demo.online "_put" "payload"
           [SSH.Data "payloadE3"; SSH.Exit (Some 0%Z)] (Some 0%Z) [] []
           Once.fresh eq_refl eq_refl (or_intror eq_refl)).
Defined.

Lemma successful_stream_leaves_the_version_cell_witness :
  snd (SSH.run Demo.unpackCommand Demo.incompatible Demo.online "_list" ""
         [SSH.Data "E3"; SSH.StderrData "E4"; SSH.Exit (Some 0%Z);
          SSH.Close None Js.Undefined; SSH.Expire]
         SSH.opened Once.fresh)
  = Once.fresh.
Proof.
  exact (successful_stream_leaves_the_version_cell Demo.unpackCommand
           Demo.incompatible Demo.online "_list" ""
           [SSH.Data "E3"; SSH.StderrData "E4"; SSH.Exit (Some 0%Z);
            SSH.Close None Js.Undefined; SSH.Expire]
           Once.fresh eq_refl).
Defined.

Lemma exec_fails_fast_witness :
  SSH.promise
    (fst (SSH.exec Demo.unpackCommand Demo.compatible Demo.offline "_list" ""
            None [SSH.Data "E3"; SSH.Close (Some 0%Z) Js.Undefined]
            Once.fresh))
  = Some (SSH.Rejected
            (SSH.Foreign (Js.Str "ssh connection is not defined")))
  /\ SSH.exec Demo.unpackCommand Demo.compatible Demo.online "_list" ""
       (Some Js.Null) [SSH.Data "E3"; SSH.Close (Some 0%Z) Js.Undefined]
       Once.fresh
     = SSH.run Demo.unpackCommand Demo.compatible Demo.online "_list" ""
         [SSH.Data "E3"; SSH.Close (Some 0%Z) Js.Undefined] SSH.opened
         Once.fresh.
Proof.
  split.
  - exact (proj2 (proj1 (exec_fails_fast Demo.unpackCommand Demo.compatible
                           Demo.offline "_list" "" None
                           [SSH.Data "E3"; SSH.Close (Some 0%Z) Js.Undefined]
                           Once.fresh) eq_refl)).
  - exact (proj2 (proj2 (exec_fails_fast Demo.unpackCommand Demo.compatible
                           Demo.online "_list" "" (Some Js.Null)
                           [SSH.Data "E3"; SSH.Close (Some 0%Z) Js.Undefined]
                           Once.fresh))
             ltac:(discriminate)
             (or_intror (ex_intro _ Js.Null (conj eq_refl eq_refl)))).
Defined.

End ChannelMore.

(* ================================================================== *)
(** ** More facts about [remote.ts] *)

Module RemoteMore.

(** X25. A remote built again from its plain object, with its primary
    flag, is the remote itself: [toPlainObject] keeps the host and the
    name, and the constructor's [name || ''] gives a stored name back
    unchanged. *)
Theorem plain_object_round_trip :
  forall r,
    Remote.constructor
      (Remote.plain_host (Remote.toPlainObject r))
      (Some (Remote.plain_name (Remote.toPlainObject r)))
      (Remote.primary r)
    = r.
Proof.
  intros [p h n]. unfold Remote.constructor, Remote.toPlainObject; simpl.
  now rewrite RemoteFacts.or_empty.
Qed.

(** X26. [load] takes a ['!'] anywhere in the name for the primary
    marker, not only a leading one; and a name without ['!'] is stored
    as it is, not primary, without [cleanBang] being asked. *)
Theorem load_finds_the_marker_anywhere :
  forall (cleanBang : string -> string) (before after name host : string),
    Remote.primary (Remote.load cleanBang (before ++ "!" ++ after) host)
      = true
    /\ Remote.host (Remote.load cleanBang (before ++ "!" ++ after) host)
       = cleanBang (before ++ "!" ++ after)
    /\ (Js.includes name "!" = false ->
        Remote.load cleanBang name host
        = {| Remote.primary := false; Remote.host := name;
             Remote.name := host |}).
Proof.
  intros cleanBang before after name host.
  unfold Remote.load, Remote.isPrimary, Remote.constructor.
  rewrite TextFacts.includes_middle. repeat split.
  intros ->. simpl. now rewrite RemoteFacts.or_empty.
Qed.

Lemma load_finds_the_marker_anywhere_witness :
  Remote.load (fun s => s) "origin" "ssh://hub.example:/scopes/main"
  = {| Remote.primary := false; Remote.host := "origin";
       Remote.name := "ssh://hub.example:/scopes/main" |}.
Proof.
  exact (proj2 (proj2 (load_finds_the_marker_anywhere (fun s => s) "" ""
                         "origin" "ssh://hub.example:/scopes/main"))
           eq_refl).
Defined.




End RemoteMore.

(* ================================================================== *)
(** ** Facts about the command line *)

Module CommandLineFacts.

Lemma assoc_set_field_same k v fields :
  Js.assoc k (SSH.set_field k v fields) = v.
Proof.
  induction fields as [| [k' v'] fields IH]; simpl.
  - now rewrite String.eqb_refl.
  - destruct (k' =? k) eqn:E; simpl.
    + now rewrite String.eqb_refl.
    + now rewrite E.
Qed.

Lemma assoc_set_field_other k k0 v fields :
  k0 <> k ->
  Js.assoc k0 (SSH.set_field k v fields) = Js.assoc k0 fields.
Proof.
  intros N. induction fields as [| [k' v'] fields IH]; simpl.
  - apply String.eqb_neq in N. rewrite String.eqb_sym in N. now rewrite N.
  - destruct (k' =? k) eqn:E; simpl.
    + apply String.eqb_eq in E. subst k'.
      apply String.eqb_neq in N. rewrite String.eqb_sym in N.
      now rewrite N.
    + destruct (k' =? k0); [reflexivity | exact IH].
Qed.

Section CommandLine.

Variable toBase64 : string -> string.
Variable buildCommandMessage :
  Js.value -> option (list (string * Js.value)) -> bool -> Js.value.
Variable packCommand : Js.value -> bool -> bool -> string.
Variable ssh_no_compress : Js.value.

Local Notation "'exec_cmd'" :=
  (SSH.exec_cmd toBase64 buildCommandMessage packCommand ssh_no_compress).

(** The command line of ['_put'] does not depend on the payload: the
    bulk data never goes through the packer. *)
Lemma put_command_line_ignores_the_payload :
  forall this payload1 payload2 context,
    exec_cmd this "_put" payload1 context
    = exec_cmd this "_put" payload2 context.
Proof.
  intros this payload1 payload2 context. reflexivity.
Qed.

(** X27. The context [exec] packs.  When the instance has a non-empty
    [_sshUsername], the context is an object whose [sshUsername] is that
    name and whose other entries are those of the context given (none
    when it was [undefined]); otherwise the context is the one given. *)
Theorem exec_context_carries_the_identity :
  forall this context,
    (forall u,
        SSH._sshUsername this = Some u -> u <> "" ->
        exists fields,
          SSH.exec_context this context = Some fields
          /\ Js.assoc "sshUsername" fields = Js.Str u
          /\ forall k,
               k <> "sshUsername" ->
               Js.assoc k fields
               = Js.assoc k (match context with
                             | Some given => given
                             | None => []
                             end))
    /\ (SSH._sshUsername this = None \/ SSH._sshUsername this = Some "" ->
        SSH.exec_context this context = context).
Proof.
  intros this context. unfold SSH.exec_context. split.
  - intros u -> N. apply String.eqb_neq in N. rewrite N.
    eexists. split; [reflexivity |]. split.
    + apply assoc_set_field_same.
    + intros k Hk. now apply assoc_set_field_other.
  - intros [-> | ->]; reflexivity.
Qed.

End CommandLine.

Lemma exec_context_carries_the_identity_witness :
  exists fields,
    SSH.exec_context (SSH.set_sshUsername "token" Demo.online)
      (Some [("scope", Js.Str "main")]) = Some fields
    /\ Js.assoc "sshUsername" fields = Js.Str "token".
Proof.
  destruct (proj1 (exec_context_carries_the_identity
                     (SSH.set_sshUsername "token" Demo.online)
                     (Some [("scope", Js.Str "main")]))
              "token" eq_refl ltac:(discriminate))
    as (fields & H1 & H2 & _).
  exists fields. split; assumption.
Defined.

End CommandLineFacts.
